(** * Earthquake chatbot front end: the consumer side of the Turn pipeline

    A shallow embedding of [frontend/src/api.ts] ([sendMessage]),
    [frontend/src/App.tsx] ([handleSend], [handleNewChat]),
    [frontend/src/components/InputBar.tsx] ([handleKeyDown], [canSend]) and
    [frontend/src/types.ts] (the [AgentEnrichedResponse] contract), followed
    by the properties the specification states about them.

    [types.ts], [App.tsx] and [InputBar.tsx] occur in the sources in an older
    and a newer revision.  The revisions of [handleSend], [handleKeyDown] and
    [canSend] are literally the same; for [types.ts] the newer revision (the
    one with the evaluation fields, which [MessageBubble.tsx] reads) is the
    one embedded. *)

From stdpp Require Import gmap strings list fin_maps pretty.
From Stdlib Require Import ZArith NArith Ascii.

Set Warnings "-register-all".

(** ** JavaScript values *)

(** A JavaScript string is a sequence of UTF-16 code units. *)
Abbreviation jsstring := (list N).

(** An ASCII string literal of the source. *)
Definition lit (s : string) : jsstring :=
  N_of_ascii <$> String.list_ascii_of_string s.

(** ECMAScript [WhiteSpace] and [LineTerminator] code points: what
    [String.prototype.trim] strips. *)
Definition is_white_space (c : N) : bool :=
  ((9 <=? c) && (c <=? 13) || (c =? 32) || (c =? 160) || (c =? 5760)
   || (8192 <=? c) && (c <=? 8202) || (c =? 8232) || (c =? 8233)
   || (c =? 8239) || (c =? 8287) || (c =? 12288) || (c =? 65279))%N.

Fixpoint trimStart (s : jsstring) : jsstring :=
  match s with
  | c :: s' => if is_white_space c then trimStart s' else s
  | [] => []
  end.

Definition trimEnd (s : jsstring) : jsstring :=
  reverse (trimStart (reverse s)).

(** [s.trim()] *)
Definition trim (s : jsstring) : jsstring := trimEnd (trimStart s).

(** The values a snapshot is made of: JSON data, and [undefined] for what a
    property read yields when the property is missing.  Numbers are the
    integers: the code does no arithmetic on them and only asks whether one
    is zero (truthiness). *)
Inductive jsvalue : Type :=
| VUndef
| VNull
| VBool (b : bool)
| VNum (n : Z)
| VStr (s : jsstring)
| VArr (elems : list jsvalue)
| VObj (fields : gmap jsstring jsvalue).

(** [Record<string, unknown>] *)
Abbreviation record := (gmap jsstring jsvalue).

(** [o[k]] on a record: a missing property reads as [undefined]. *)
Definition get (o : record) (k : string) : jsvalue :=
  default VUndef (o !! lit k).

(** [v === null || v === undefined] *)
Definition nullish (v : jsvalue) : bool :=
  match v with
  | VUndef | VNull => true
  | _ => false
  end.

(** [v.k] for a value that is neither [null] nor [undefined] and a name [k]
    among those the code reads ([type], [role], [content], [answer_text]):
    only an object carries such a property; on a primitive or an array it is
    [undefined]. *)
Definition field (v : jsvalue) (k : string) : jsvalue :=
  match v with
  | VObj o => get o k
  | _ => VUndef
  end.

(** [ToBoolean] *)
Definition truthy (v : jsvalue) : bool :=
  match v with
  | VUndef | VNull => false
  | VBool b => b
  | VNum n => negb (n =? 0)%Z
  | VStr s => negb (bool_decide (s = []))
  | VArr _ | VObj _ => true
  end.

(** [v === 'k'] against a string literal *)
Definition is_literal (v : jsvalue) (k : string) : bool :=
  match v with
  | VStr s => bool_decide (s = lit k)
  | _ => false
  end.

(** [a ?? b] *)
Definition nullish_or (a b : jsvalue) : jsvalue :=
  match a with
  | VUndef | VNull => b
  | _ => a
  end.

(** What a [throw] carries: an [Error] instance with its [message], or any
    other value. *)
Inductive thrown : Type :=
| ErrorObject (message : jsstring)
| Other (v : jsvalue).

(** The outcome of a call (for an async function: of awaiting it). *)
Inductive completion (A : Type) : Type :=
| Return (a : A)
| Throw (e : thrown).
Arguments Return {A} a.
Arguments Throw {A} e.

(** Sequencing: a [throw] ends the evaluation. *)
#[global] Instance completion_bind : MBind completion :=
  fun A B (k : A -> completion B) (c : completion A) =>
    match c with
    | Return a => k a
    | Throw e => Throw e
    end.

(** The [TypeError] of reading property [k] of [null] or [undefined], an
    [Error] instance.  Its [message] is the engine's; the wording is V8's. *)
Definition type_error (v : jsvalue) (k : string) : thrown :=
  ErrorObject
    (lit "Cannot read properties of "
     ++ (match v with VNull => lit "null" | _ => lit "undefined" end)
     ++ lit " (reading '" ++ lit k ++ lit "')").

(** [v.k]: reading a property of [null] or [undefined] throws. *)
Definition prop (v : jsvalue) (k : string) : completion jsvalue :=
  if nullish v then Throw (type_error v k) else Return (field v k).

(** ** [types.ts]: the caller-facing result shape *)

Module Types.

Record APICallLog : Type := {
  url : jsstring;
  retrieved_at_utc : jsstring;
  result_type : jsstring;
  total_available : option Z;      (* number | null *)
  returned : option Z;             (* number | null *)
  count : option Z                 (* number | null *)
}.

(** ['misaligned_intent' | 'ungrounded_output'] *)
Inductive FailureCategory : Type :=
| misaligned_intent
| ungrounded_output.

Record AgentEnrichedResponse : Type := {
  request_id : jsstring;
  title : jsstring;
  parsed_intent : jsstring;
  assumptions : list jsstring;
  api_calls : list APICallLog;
  answer_text : jsstring;
  eval_score : Z;
  eval_passed : bool;
  eval_failure_category : option FailureCategory   (* ... | null *)
}.

Inductive Role : Type := human | assistant.

(** [timestamp: Date] is the epoch time in milliseconds.  [enriched?] holds
    the value [sendMessage] handed over, [VUndef] when absent: the code
    casts it to [AgentEnrichedResponse] without inspecting it. *)
Record Message : Type := {
  id : jsstring;
  role : Role;
  content : jsvalue;
  timestamp : Z;
  enriched : jsvalue
}.

(** *** The JSON object of each interface *)

Definition nullable_number (n : option Z) : jsvalue :=
  match n with Some z => VNum z | None => VNull end.

Definition APICallLog_to_value (c : APICallLog) : jsvalue :=
  VObj (list_to_map
    [ (lit "url", VStr (url c));
      (lit "retrieved_at_utc", VStr (retrieved_at_utc c));
      (lit "result_type", VStr (result_type c));
      (lit "total_available", nullable_number (total_available c));
      (lit "returned", nullable_number (returned c));
      (lit "count", nullable_number (count c)) ]).

Definition category_name (c : FailureCategory) : string :=
  match c with
  | misaligned_intent => "misaligned_intent"
  | ungrounded_output => "ungrounded_output"
  end.

Definition category_to_value (c : option FailureCategory) : jsvalue :=
  match c with Some k => VStr (lit (category_name k)) | None => VNull end.

Definition enriched_fields (e : AgentEnrichedResponse) : record :=
  list_to_map
    [ (lit "request_id", VStr (request_id e));
      (lit "title", VStr (title e));
      (lit "parsed_intent", VStr (parsed_intent e));
      (lit "assumptions", VArr (VStr <$> assumptions e));
      (lit "api_calls", VArr (APICallLog_to_value <$> api_calls e));
      (lit "answer_text", VStr (answer_text e));
      (lit "eval_score", VNum (eval_score e));
      (lit "eval_passed", VBool (eval_passed e));
      (lit "eval_failure_category",
        category_to_value (eval_failure_category e)) ].

Definition to_value (e : AgentEnrichedResponse) : jsvalue :=
  VObj (enriched_fields e).

(** *** Reading a JSON value at each declared field type *)

Definition as_string (v : jsvalue) : option jsstring :=
  match v with VStr s => Some s | _ => None end.

Definition as_number (v : jsvalue) : option Z :=
  match v with VNum n => Some n | _ => None end.

Definition as_boolean (v : jsvalue) : option bool :=
  match v with VBool b => Some b | _ => None end.

Definition as_nullable_number (v : jsvalue) : option (option Z) :=
  match v with
  | VNull => Some None
  | VNum n => Some (Some n)
  | _ => None
  end.

Definition as_array {A} (f : jsvalue -> option A) (v : jsvalue)
  : option (list A) :=
  match v with VArr l => mapM f l | _ => None end.

Definition as_category (v : jsvalue) : option (option FailureCategory) :=
  match v with
  | VNull => Some None
  | VStr s =>
      if bool_decide (s = lit "misaligned_intent")
      then Some (Some misaligned_intent)
      else if bool_decide (s = lit "ungrounded_output")
      then Some (Some ungrounded_output)
      else None
  | _ => None
  end.

Definition APICallLog_of_value (v : jsvalue) : option APICallLog :=
  match v with
  | VObj o =>
      u ← as_string (get o "url");
      t ← as_string (get o "retrieved_at_utc");
      r ← as_string (get o "result_type");
      a ← as_nullable_number (get o "total_available");
      n ← as_nullable_number (get o "returned");
      c ← as_nullable_number (get o "count");
      Some {| url := u; retrieved_at_utc := t; result_type := r;
              total_available := a; returned := n; count := c |}
  | _ => None
  end.

(** The declared fields of [AgentEnrichedResponse], each at its declared
    type; [None] when the value is not of the interface type. *)
Definition of_value (v : jsvalue) : option AgentEnrichedResponse :=
  match v with
  | VObj o =>
      i ← as_string (get o "request_id");
      t ← as_string (get o "title");
      p ← as_string (get o "parsed_intent");
      a ← as_array as_string (get o "assumptions");
      c ← as_array APICallLog_of_value (get o "api_calls");
      x ← as_string (get o "answer_text");
      s ← as_number (get o "eval_score");
      b ← as_boolean (get o "eval_passed");
      f ← as_category (get o "eval_failure_category");
      Some {| request_id := i; title := t; parsed_intent := p;
              assumptions := a; api_calls := c; answer_text := x;
              eval_score := s; eval_passed := b;
              eval_failure_category := f |}
  | _ => None
  end.

(** The property names of the contract, as the interface lists them. *)
Definition contract_fields : list string :=
  [ "request_id"; "title"; "parsed_intent"; "assumptions"; "api_calls";
    "answer_text"; "eval_score"; "eval_passed";
    "eval_failure_category" ]%string.

End Types.

(** ** [api.ts]: [sendMessage] *)

Module Api.

(** One item of the run stream: [event.event] and [event.data], the latter
    at the type the code casts it to, [Record<string, unknown> | null]. *)
Record StreamEvent : Type := {
  event : jsstring;
  data : option record
}.

(** What [for await (const event of stream)] observes: the stream ends,
    rejects, or yields one more event.  (A stream that never ends keeps
    [sendMessage] pending for ever; such streams are not represented.) *)
Inductive stream : Type :=
| Done
| Fail (e : thrown)
| Yield (ev : StreamEvent) (rest : stream).

Record SendMessageResult : Type := {
  content : jsvalue;
  enriched : jsvalue        (* AgentEnrichedResponse | null *)
}.

Definition NO_RESPONSE : jsstring := lit "The agent returned no response.".

(** The [for await] loop, [finalState] being the loop-carried variable. *)
Fixpoint collect (finalState : option record) (s : stream)
  : completion (option record) :=
  match s with
  | Done => Return finalState
  | Fail e => Throw e
  | Yield ev rest =>
      collect (if bool_decide (event ev = lit "values")
               then data ev else finalState) rest
  end.

(** The condition of the [if] inside the backwards loop over [messages]:
    [(msg.type === 'ai' || msg.role === 'assistant') &&
     typeof msg.content === 'string' && msg.content.trim().length > 0],
    read left to right with its short cuts. *)
Definition is_answer (msg : jsvalue) : completion bool :=
  type ← prop msg "type";
  authored ← (if is_literal type "ai" then Return true
              else role ← prop msg "role";
                   Return (is_literal role "assistant"));
  if authored : bool
  then content ← prop msg "content";
       Return match content with
              | VStr c => (0 <? length (trim c))%nat
              | _ => false
              end
  else Return false.

(** [msg.content] where the loop has checked it to be a string. *)
Definition content_of (msg : jsvalue) : jsstring :=
  match field msg "content" with
  | VStr c => c
  | _ => []
  end.

(** [messages[i]] for the values [messages] can be after [?? []]: an element
    of an array, a one-character string of a string, the property named by
    the decimal digits of [i] of an object; [undefined] where there is
    none. *)
Definition index (messages : jsvalue) (i : nat) : jsvalue :=
  match messages with
  | VArr l => default VUndef (l !! i)
  | VStr s => match s !! i with Some c => VStr [c] | None => VUndef end
  | VObj o => default VUndef (o !! lit (pretty i))
  | _ => VUndef
  end.

(** The bound of the loop: [n] such that [messages.length - 1] is [n - 1]
    when that is at least 0, and 0 when it is negative or [NaN].  An array
    and a string have their length; a number and a boolean have no [length];
    an object has what its [length] property holds, converted to a number.
    [None] where that conversion or the loop's arithmetic is not embedded:
    a [length] that is a string or an array (string-to-number conversion),
    or a number above 2^53 (where doubles no longer count down by one). *)
Definition iterations (messages : jsvalue) : option nat :=
  match messages with
  | VArr l => Some (length l)
  | VStr s => Some (length s)
  | VObj o =>
      match get o "length" with
      | VNum n => if (n <=? 2 ^ 53)%Z then Some (Z.to_nat n) else None
      | VBool b => Some (if b then 1 else 0)%nat
      | VUndef | VNull | VObj _ => Some 0%nat
      | VStr _ | VArr _ => None
      end
  | _ => Some 0%nat
  end.

(** [for (let i = messages.length - 1; i >= 0; i--)], started with [content]
    being the empty string; [n] is [i + 1]. *)
Fixpoint scan (messages : jsvalue) (n : nat) : completion jsstring :=
  match n with
  | O => Return []
  | S i =>
      let msg := index messages i in
      found ← is_answer msg;
      if found : bool then Return (content_of msg) else scan messages i
  end.

(** [content.trim() || 'The agent returned no response.'] *)
Definition or_no_response (body : jsstring) : jsstring :=
  if bool_decide (trim body = []) then NO_RESPONSE else trim body.

(** The supervisor-only path: the last lines of [sendMessage].  [None] where
    the loop is not embedded (see [iterations]). *)
Definition from_messages (st : record)
  : option (completion SendMessageResult) :=
  let messages := nullish_or (get st "messages") (VArr []) in
  if nullish messages then Some (Throw (type_error messages "length"))
  else
    n ← iterations messages;
    Some (body ← scan messages n;
          Return {| content := VStr (or_no_response body);
                    enriched := VNull |}).

(** [sendMessage] from the end of the loop on. *)
Definition answer (finalState : option record)
  : option (completion SendMessageResult) :=
  match finalState with
  | None => Some (Return {| content := VStr NO_RESPONSE; enriched := VNull |})
  | Some st =>
      let action := get st "action" in
      let enrichedRaw := get st "enriched_response" in
      if is_literal action "build_execute_query" && truthy enrichedRaw
      then Some (answer_text ← prop enrichedRaw "answer_text";
                 Return {| content := answer_text; enriched := enrichedRaw |})
      else from_messages st
  end.

(** [sendMessage], given the stream [client.runs.stream] opened for the
    thread and the user message. *)
Definition sendMessage (s : stream)
  : option (completion SendMessageResult) :=
  match collect None s with
  | Return finalState => answer finalState
  | Throw e => Some (Throw e)
  end.

(** *** Vocabulary of the specification *)

(** A stream that yields the given events and ends. *)
Definition events (l : list StreamEvent) : stream := foldr Yield Done l.


(** [event.event === 'values'] *)
Definition is_values (ev : StreamEvent) : Prop := event ev = lit "values".

(** The stream ends without failing, and the loop over it leaves
    [finalState] as given: the "final snapshot" of the Turn. *)
Definition final_snapshot (s : stream) (finalState : option record) : Prop :=
  collect None s = Return finalState.

(** The snapshot's [messages] are the list [l]: the property is an array
    with these elements, or it is absent or [null] and [l] is empty. *)
Definition has_messages (st : record) (l : list jsvalue) : Prop :=
  get st "messages" = VArr l
  \/ (nullish (get st "messages") = true /\ l = []).

(** "whose type is 'ai' or role is 'assistant'" *)
Definition assistant_authored (msg : jsvalue) : Prop :=
  field msg "type" = VStr (lit "ai")
  \/ field msg "role" = VStr (lit "assistant").

(** "whose content is a string with non-empty trimmed text" *)
Definition has_text (msg : jsvalue) : Prop :=
  exists c, field msg "content" = VStr c /\ trim c <> [].

(** A message the loop passes over: an element that is there and is not
    both assistant-authored and with text. *)
Definition no_answer (msg : jsvalue) : Prop :=
  nullish msg = false /\ ~ (assistant_authored msg /\ has_text msg).

(** The loop's test on an element that is there. *)
Definition answers (msg : jsvalue) : bool :=
  (is_literal (field msg "type") "ai"
   || is_literal (field msg "role") "assistant")
  && match field msg "content" with
     | VStr c => (0 <? length (trim c))%nat
     | _ => false
     end.

(** The result that carries the fixed sentence. *)
Definition no_response : SendMessageResult :=
  {| content := VStr NO_RESPONSE; enriched := VNull |}.

(** "the most recent message" that is assistant-authored and has text. *)
Definition latest_answer (messages : list jsvalue) : option jsvalue :=
  last (filter (fun m => answers m = true) messages).

(** The branch of [sendMessage] that hands the stored bundle over. *)
Definition takes_enriched (st : record) : bool :=
  is_literal (get st "action") "build_execute_query"
  && truthy (get st "enriched_response").

End Api.

(** ** [InputBar.tsx] *)

Module InputBar.

(** The props the logic reads; [onChange], [onSend] and [onNewChat] are the
    callbacks of [App]. *)
Record Props : Type := {
  value : jsstring;
  isLoading : bool
}.

Record KeyboardEvent : Type := {
  key : jsstring;
  shiftKey : bool
}.

(** What one call of [handleKeyDown] does: whether it calls
    [e.preventDefault()] and whether it calls [onSend()]. *)
Record KeyDownEffect : Type := {
  preventDefault : bool;
  onSend : bool
}.

Definition handleKeyDown (p : Props) (e : KeyboardEvent) : KeyDownEffect :=
  if bool_decide (key e = lit "Enter") && negb (shiftKey e)
  then {| preventDefault := true;
          onSend := negb (isLoading p) && truthy (VStr (trim (value p))) |}
  else {| preventDefault := false; onSend := false |}.

Definition canSend (p : Props) : bool :=
  negb (isLoading p) && (0 <? length (trim (value p)))%nat.

(** The [disabled] attributes of the rendered controls. *)
Definition send_disabled (p : Props) : bool := negb (canSend p).
Definition textarea_disabled (p : Props) : bool := isLoading p.
Definition new_chat_disabled (p : Props) : bool := isLoading p.

End InputBar.

(** ** [App.tsx] *)

Module App.
Import Types.

(** The five [useState] cells. *)
Record State : Type := {
  threadId : option jsstring;      (* string | null *)
  messages : list Message;
  inputValue : jsstring;
  isLoading : bool;
  error : option jsstring          (* string | null *)
}.

Definition setThreadId (t : option jsstring) (s : State) : State :=
  {| threadId := t; messages := messages s; inputValue := inputValue s;
     isLoading := isLoading s; error := error s |}.

(** [setMessages] with an updater function [(prev) => ...]. *)
Definition setMessages (f : list Message -> list Message) (s : State)
  : State :=
  {| threadId := threadId s; messages := f (messages s);
     inputValue := inputValue s; isLoading := isLoading s;
     error := error s |}.

Definition setInputValue (v : jsstring) (s : State) : State :=
  {| threadId := threadId s; messages := messages s; inputValue := v;
     isLoading := isLoading s; error := error s |}.

Definition setIsLoading (b : bool) (s : State) : State :=
  {| threadId := threadId s; messages := messages s;
     inputValue := inputValue s; isLoading := b; error := error s |}.

Definition setError (e : option jsstring) (s : State) : State :=
  {| threadId := threadId s; messages := messages s;
     inputValue := inputValue s; isLoading := isLoading s; error := e |}.

(** The state of the first render. *)
Definition initial : State :=
  {| threadId := None; messages := []; inputValue := [];
     isLoading := false; error := None |}.

(** What [crypto.randomUUID()] and [new Date()] give when a message object
    is built. *)
Record Fresh : Type := {
  uuid : jsstring;
  now : Z
}.

(** A call of [sendMessage(threadId, userMessage)] awaiting its result. *)
Record Request : Type := {
  thread : jsstring;
  userMessage : jsstring
}.

(** [!inputValue.trim() || isLoading || !threadId]: the early [return]. *)
Definition returns_early (s : State) : bool :=
  negb (truthy (VStr (trim (inputValue s))))
  || isLoading s
  || match threadId s with
     | Some t => negb (truthy (VStr t))
     | None => true
     end.

(** [handleSend] up to its [await]: [None] when it returns at once, else
    the state after the four setters and the [sendMessage] call made.  The
    handler reads the state of the render it was created in; each event is
    taken to arrive after the render of the state before it. *)
Definition handleSend_call (f : Fresh) (s : State)
  : option (State * Request) :=
  if returns_early s then None
  else
    let userMessage :=
      {| id := uuid f; role := human;
         content := VStr (trim (inputValue s));
         timestamp := now f; enriched := VUndef |} in
    let s1 := setMessages (fun prev => prev ++ [userMessage]) s in
    let s2 := setInputValue [] s1 in
    let s3 := setIsLoading true s2 in
    let s4 := setError None s3 in
    Some (s4, {| thread := default [] (threadId s);
                 userMessage := trim (inputValue s) |}).

Definition UNEXPECTED : jsstring := lit "An unexpected error occurred.".

(** [err instanceof Error ? err.message : 'An unexpected error occurred.'] *)
Definition error_message (err : thrown) : jsstring :=
  match err with
  | ErrorObject m => m
  | Other _ => UNEXPECTED
  end.

(** [handleSend] from the [await] on: the rest of [try], [catch] and
    [finally], on the state current when the promise settles. *)
Definition handleSend_settle (f : Fresh)
    (r : completion Api.SendMessageResult) (s : State) : State :=
  let s1 :=
    match r with
    | Return res =>
        let assistantMessage :=
          {| id := uuid f; role := assistant;
             content := Api.content res;
             timestamp := now f;
             enriched := nullish_or (Api.enriched res) VUndef |} in
        setMessages (fun prev => prev ++ [assistantMessage]) s
    | Throw err =>
        let msg := error_message err in
        setError (Some msg) s
    end in
  setIsLoading false s1.

Definition CANNOT_CONNECT : jsstring :=
  lit "Could not connect to the LangGraph server. Make sure `langgraph dev` is running on port 2024.".

(** [initThread] from its [await createThread()] on. *)
Definition initThread_settle (r : completion jsstring) (s : State) : State :=
  match r with
  | Return i => setError None (setThreadId (Some i) s)
  | Throw _ => setError (Some CANNOT_CONNECT) s
  end.

(** [handleNewChat] up to its [await initThread()]. *)
Definition handleNewChat_call (s : State) : State :=
  setError None (setInputValue [] (setMessages (fun _ => []) s)).

(** [handleSuggestion], and [onChange] of the text area. *)
Definition handleSuggestion (text : jsstring) (s : State) : State :=
  setInputValue text s.

(** The props [App] renders [InputBar] with. *)
Definition inputBarProps (s : State) : InputBar.Props :=
  {| InputBar.value := inputValue s; InputBar.isLoading := isLoading s |}.

(** The two messages of a Turn. *)
Definition human_message (f : Fresh) (text : jsstring) : Message :=
  {| id := uuid f; role := human; content := VStr text;
     timestamp := now f; enriched := VUndef |}.

Definition assistant_message (f : Fresh) (res : Api.SendMessageResult)
  : Message :=
  {| id := uuid f; role := assistant; content := Api.content res;
     timestamp := now f;
     enriched := nullish_or (Api.enriched res) VUndef |}.

(** One whole call of [handleSend] when nothing else happens while it
    awaits: [runs_stream] is what [client.runs.stream] answers.  [None]
    where [sendMessage] is not embedded. *)
Definition handleSend (runs_stream : Request -> Api.stream)
    (f1 f2 : Fresh) (s : State) : option State :=
  match handleSend_call f1 s with
  | None => Some s
  | Some (s', rq) =>
      r ← Api.sendMessage (runs_stream rq);
      Some (handleSend_settle f2 r s')
  end.

End App.

(** ** The page as a transition system

    The events that reach the handlers of [App], one at a time, with the
    [sendMessage] and [createThread] calls that are awaiting their result. *)

Module Session.
Import App.

Record System : Type := {
  app : State;
  in_flight : list Request;      (* [sendMessage] calls not yet settled *)
  connecting : nat               (* [createThread] calls not yet settled *)
}.

Inductive Event : Type :=
| KeyDown (e : InputBar.KeyboardEvent) (f : Fresh)
| ClickSend (f : Fresh)
| Change (text : jsstring)       (* [onChange], or a suggestion chip *)
| ClickNewChat
| StreamEnds (s : Api.stream) (f : Fresh)
| ThreadSettles (r : completion jsstring).

(** [useEffect(() => { initThread(); }, ...)] has run once. *)
Definition start : System :=
  {| app := initial; in_flight := []; connecting := 1 |}.

(** A call of [handleSend]. *)
Definition send (f : Fresh) (sys : System) : System :=
  match handleSend_call f (app sys) with
  | None => sys
  | Some (s, rq) =>
      {| app := s; in_flight := in_flight sys ++ [rq];
         connecting := connecting sys |}
  end.

(** One event; [None] where it cannot occur.  The send button and the text
    area are given no benefit of their [disabled] attribute: a click or a
    key press is let through to the handler in every state.  "New chat",
    whose handler has no guard of its own, is clickable only while its
    button is enabled. *)
Definition step (ev : Event) (sys : System) : option System :=
  match ev with
  | KeyDown e f =>
      Some (if InputBar.onSend
                 (InputBar.handleKeyDown (inputBarProps (app sys)) e)
            then send f sys else sys)
  | ClickSend f => Some (send f sys)
  | Change text =>
      Some {| app := handleSuggestion text (app sys);
              in_flight := in_flight sys; connecting := connecting sys |}
  | ClickNewChat =>
      if InputBar.new_chat_disabled (inputBarProps (app sys)) then None
      else Some {| app := handleNewChat_call (app sys);
                   in_flight := in_flight sys;
                   connecting := S (connecting sys) |}
  | StreamEnds s f =>
      match in_flight sys with
      | [] => None
      | _ :: rest =>
          r ← Api.sendMessage s;
          Some {| app := handleSend_settle f r (app sys);
                  in_flight := rest; connecting := connecting sys |}
      end
  | ThreadSettles r =>
      match connecting sys with
      | O => None
      | S n => Some {| app := initThread_settle r (app sys);
                       in_flight := in_flight sys; connecting := n |}
      end
  end.

Fixpoint run (evs : list Event) (sys : System) : option System :=
  match evs with
  | [] => Some sys
  | ev :: evs' =>
      match step ev sys with
      | Some sys' => run evs' sys'
      | None => None
      end
  end.

(** Every event but the settling of a [sendMessage] call. *)
Definition quiet (ev : Event) : bool :=
  match ev with
  | StreamEnds _ _ => false
  | _ => true
  end.

(** A Turn is in flight exactly while [isLoading] is set, and then it is
    the only one. *)
Definition consistent (sys : System) : Prop :=
  length (in_flight sys) = if isLoading (app sys) then 1 else 0.

(** The event starts a Turn: it switches [isLoading] on. *)
Definition starts_turn (ev : Event) (sys sys' : System) : Prop :=
  step ev sys = Some sys'
  /\ isLoading (app sys) = false /\ isLoading (app sys') = true.

(** *** The shape of the message list *)

(** What may come after a message of role [prev] (after nothing, for
    [None]): a human message that carries no bundle, or, directly after a
    human message, an assistant message. *)
Definition may_follow (prev : option Types.Role) (m : Types.Message) : Prop :=
  match Types.role m with
  | Types.human => Types.enriched m = VUndef
  | Types.assistant => prev = Some Types.human
  end.

Fixpoint follows (prev : option Types.Role) (ms : list Types.Message)
  : Prop :=
  match ms with
  | [] => True
  | m :: ms' => may_follow prev m /\ follows (Some (Types.role m)) ms'
  end.

Definition conversation (ms : list Types.Message) : Prop := follows None ms.

(** The role of the last message, [prev] for the empty list. *)
Definition last_role (prev : option Types.Role) (ms : list Types.Message)
  : option Types.Role :=
  match last ms with
  | Some m => Some (Types.role m)
  | None => prev
  end.

(** While a Turn is in flight the list ends with a human message. *)
Definition awaits_answer (sys : System) : Prop :=
  isLoading (app sys) = true ->
  last_role None (messages (app sys)) = Some Types.human.

(** What every event keeps. *)
Definition shaped (sys : System) : Prop :=
  consistent sys /\ conversation (messages (app sys)) /\ awaits_answer sys.

End Session.

(** ** [MessageBubble.tsx]

    What the component renders, as data: which of its three [return]s is
    taken and the parts of the markup that depend on the message.  The time
    label keeps the time stamp ([toLocaleTimeString] depends on the locale),
    and so do the counts that the markup passes through [toLocaleString]. *)

Module MessageBubble.
Import Types.

(** The [eval-badge] element: the modifier of its class name, the score in
    "Quality score: .../100", and the text of the category [span] where one
    is rendered. *)
Record EvalBadge : Type := {
  modifier : jsstring;
  score : Z;
  category : option jsstring
}.

Definition eval_badge (enriched : AgentEnrichedResponse) : EvalBadge :=
  if eval_passed enriched
  then {| modifier := lit "pass"; score := eval_score enriched;
          category := None |}
  else {| modifier := lit "fail"; score := eval_score enriched;
          category :=
            match eval_failure_category enriched with
            | Some c =>
                Some match c with
                     | misaligned_intent => lit "Misaligned Intent"
                     | ungrounded_output => lit "Ungrounded Output"
                     end
            | None => None
            end |}.

(** [enriched.api_calls.length > 1 ? `API call ${i + 1}` : 'API call'] *)
Definition heading (calls i : nat) : jsstring :=
  if (1 <? calls)%nat then lit "API call " ++ lit (pretty (i + 1)%nat)
  else lit "API call".

(** One [explainability-section] of the [api_calls.map]: the heading, the
    badge text, the "Returned" row (the number returned and, where known, the
    number available), the "Count" row, the time and the link. *)
Record CallSection : Type := {
  call_heading : jsstring;
  call_badge : jsstring;
  returned_row : option (Z * option Z);
  count_row : option Z;
  retrieved_row : jsstring;
  url_row : jsstring
}.

Definition call_section (calls i : nat) (call : APICallLog) : CallSection :=
  {| call_heading := heading calls i;
     call_badge := result_type call;
     returned_row :=
       match returned call with
       | Some n => Some (n, total_available call)
       | None => None
       end;
     count_row := count call;
     retrieved_row := retrieved_at_utc call;
     url_row := url call |}.

(** The enriched bubble, for a bundle of the declared type. *)
Record EnrichedView : Type := {
  view_title : jsstring;
  view_answer : jsstring;
  view_badge : EvalBadge;
  view_assumptions : option (list jsstring);
  view_calls : list CallSection;
  view_request_id : jsstring
}.

Definition enriched_view (enriched : AgentEnrichedResponse) : EnrichedView :=
  {| view_title := title enriched;
     view_answer := answer_text enriched;
     view_badge := eval_badge enriched;
     view_assumptions :=
       if (0 <? length (assumptions enriched))%nat
       then Some (assumptions enriched) else None;
     view_calls :=
       imap (call_section (length (api_calls enriched)))
            (api_calls enriched);
     view_request_id := request_id enriched |}.

(** The three [return]s of the component. *)
Inductive Bubble : Type :=
| HumanBubble (content : jsstring) (time : Z)
| EnrichedBubble (view : EnrichedView) (time : Z)
| AssistantBubble (content : jsstring) (time : Z).

(** [{message.content}] as the child of the paragraph.  The prop is declared
    a string, and a string is rendered as its text; what React does with a
    child of another kind is not embedded ([None]). *)
Definition text_child (content : jsvalue) : option jsstring :=
  match content with
  | VStr c => Some c
  | _ => None
  end.

(** The component.  The first two tests are the code's: the role, then the
    truthiness of [message.enriched].  The enriched bubble reads the value
    as the declared [AgentEnrichedResponse]; where the value is not of that
    type (a property missing or of another type, where the markup throws or
    hands React a child of another kind) the rendering is not embedded
    ([None]). *)
Definition MessageBubble (message : Message) : option Bubble :=
  let isHuman :=
    match role message with human => true | assistant => false end in
  let enriched := Types.enriched message in
  let time := timestamp message in
  if isHuman
  then c ← text_child (content message); Some (HumanBubble c time)
  else if truthy enriched
  then e ← of_value enriched; Some (EnrichedBubble (enriched_view e) time)
  else c ← text_child (content message); Some (AssistantBubble c time).

End MessageBubble.

(** ** [ChatWindow.tsx] *)

Module ChatWindow.
Import Types.

(** [onSuggestion?] is kept as whether the callback was passed. *)
Record Props : Type := {
  messages : list Message;
  isLoading : bool;
  onSuggestion : bool
}.

Definition SUGGESTIONS : list jsstring :=
  [ lit "What major earthquakes happened near Tokyo in the last year?";
    lit "How many M6+ earthquakes occurred globally this month?";
    lit "What was the strongest earthquake in California in 2024?";
    lit "Show recent seismic activity near Turkey" ].

Definition isEmpty (p : Props) : bool :=
  (length (messages p) =? 0)%nat && negb (isLoading p).

(** The empty state with its suggestion chips, or the list of bubbles (each
    as [MessageBubble] gives it) with the loading dots after it. *)
Inductive View : Type :=
| EmptyState (chips : list jsstring)
| MessageList (bubbles : list (option MessageBubble.Bubble))
    (loading_dots : bool).

Definition ChatWindow (p : Props) : View :=
  if isEmpty p
  then EmptyState (if onSuggestion p then SUGGESTIONS else [])
  else MessageList (MessageBubble.MessageBubble <$> messages p) (isLoading p).

End ChatWindow.

(** ** [App.tsx]: what the page shows *)

Module Page.
Import App.

(** A [string | null] state cell in a boolean position. *)
Definition present (cell : option jsstring) : bool :=
  match cell with
  | Some t => truthy (VStr t)
  | None => false
  end.

Inductive Status : Type := Connected | Connecting | Disconnected.

(** The three conditional [app-status] spans of the header, in order. *)
Definition status_spans (s : State) : list Status :=
  (if present (threadId s) && negb (present (error s))
   then [Connected] else [])
  ++ (if negb (present (threadId s)) && negb (present (error s))
      then [Connecting] else [])
  ++ (if present (error s) then [Disconnected] else []).

(** [{error && (<div className="error-banner" ...>)}]: the text shown. *)
Definition error_banner (s : State) : option jsstring :=
  if present (error s) then error s else None.

(** The props [App] renders [ChatWindow] with (newer revision). *)
Definition chatWindowProps (s : State) : ChatWindow.Props :=
  {| ChatWindow.messages := messages s;
     ChatWindow.isLoading := isLoading s;
     ChatWindow.onSuggestion := true |}.

End Page.

(** ** Sample data

    Snapshots and streams of the shape the LangGraph server sends, on which
    the statements below are instantiated. *)

Module Samples.
Import Types.

Definition message (type content : string) : jsvalue :=
  VObj (list_to_map [ (lit "type", VStr (lit type));
                      (lit "content", VStr (lit content)) ]).

Definition count_call : APICallLog :=
  {| url := lit "https://earthquake.usgs.gov/fdsnws/event/1/count";
     retrieved_at_utc := lit "2025-01-31T12:00:00Z";
     result_type := lit "count";
     total_available := None; returned := None; count := Some 12%Z |}.

Definition bundle : AgentEnrichedResponse :=
  {| request_id := lit "req-1";
     title := lit "M6+ earthquakes this month";
     parsed_intent := lit "count of M6+ events, global, this month";
     assumptions := [lit "global scope"];
     api_calls := [count_call];
     answer_text := lit "There were 12 M6+ earthquakes this month.";
     eval_score := 92%Z; eval_passed := true;
     eval_failure_category := None |}.

Definition thread_messages : list jsvalue :=
  [ message "human" "How many M6+ earthquakes occurred this month?";
    message "ai" "There were 12 M6+ earthquakes this month.";
    message "human" "What does magnitude mean?";
    message "ai" " Magnitude measures the energy released. ";
    message "ai" "   " ].

(** A data Turn: the full pipeline ran. *)
Definition data_turn : record :=
  list_to_map [ (lit "action", VStr (lit "build_execute_query"));
                (lit "enriched_response", to_value bundle);
                (lit "messages", VArr (take 2 thread_messages)) ].

(** A glossary Turn after it: [enriched_response] is left over. *)
Definition glossary_turn : record :=
  list_to_map [ (lit "action", VStr (lit "show_glossary"));
                (lit "enriched_response", to_value bundle);
                (lit "messages", VArr thread_messages) ].


Definition values (st : record) : Api.StreamEvent :=
  {| Api.event := lit "values"; Api.data := Some st |}.

Definition metadata : Api.StreamEvent :=
  {| Api.event := lit "metadata"; Api.data := None |}.

(** The stream of the glossary Turn: two snapshots, the earlier one still
    that of the data Turn before it, and a closing event. *)
Definition glossary_stream : Api.stream :=
  Api.events [metadata; values data_turn; values glossary_turn; metadata].

Definition data_stream : Api.stream :=
  Api.events [metadata; values glossary_turn; values data_turn].


Definition fresh (n : Z) : App.Fresh :=
  {| App.uuid := lit "uuid"; App.now := n |}.

(** The page with a thread, one finished Turn and a question typed in. *)
Definition ready : App.State :=
  {| App.threadId := Some (lit "thread-1");
     App.messages :=
       [ App.human_message (fresh 1) (lit "hello");
         App.assistant_message (fresh 2)
           {| Api.content := VStr (lit "Hi."); Api.enriched := VNull |} ];
     App.inputValue := lit " What does magnitude mean? ";
     App.isLoading := false;
     App.error := None |}.

Definition enter : InputBar.KeyboardEvent :=
  {| InputBar.key := lit "Enter"; InputBar.shiftKey := false |}.

Definition first_visit : Session.System :=
  {| Session.app := ready; Session.in_flight := [];
     Session.connecting := 0 |}.

(** The events of a visit: the thread is created, a question is typed and
    sent with Enter. *)
Definition visit : list Session.Event :=
  [ Session.ThreadSettles (Return (lit "thread-1"));
    Session.Change (lit " What does magnitude mean? ");
    Session.KeyDown enter (fresh 3) ].

(** Where [visit] leads from the first render: the first question is in
    flight. *)
Definition first_question : Session.System :=
  {| Session.app :=
       {| App.threadId := Some (lit "thread-1");
          App.messages :=
            [App.human_message (fresh 3) (lit "What does magnitude mean?")];
          App.inputValue := [];
          App.isLoading := true;
          App.error := None |};
     Session.in_flight :=
       [ {| App.thread := lit "thread-1";
            App.userMessage := lit "What does magnitude mean?" |} ];
     Session.connecting := 0 |}.

(** The upstream service cannot be reached. *)
Definition unreachable : Api.stream :=
  Api.Fail (ErrorObject (lit "Failed to fetch")).

(** The question has been sent: a Turn is in flight. *)
Definition asked : Session.System := Session.send (fresh 3) first_visit.

(** While it is, the user types on and clicks "Send". *)
Definition meanwhile : list Session.Event :=
  [ Session.Change (lit "and depth?"); Session.ClickSend (fresh 4);
    Session.KeyDown enter (fresh 5) ].

Definition waiting : Session.System :=
  {| Session.app := App.handleSuggestion (lit "and depth?") (Session.app asked);
     Session.in_flight := Session.in_flight asked;
     Session.connecting := 0 |}.

(** The Turn settles with what [sendMessage] has made of the stream. *)
Definition settled (r : completion Api.SendMessageResult) : Session.System :=
  {| Session.app := App.handleSend_settle (fresh 6) r (Session.app waiting);
     Session.in_flight := [];
     Session.connecting := 0 |}.

(** What [sendMessage] returns for the glossary Turn. *)
Definition glossary_answer : Api.SendMessageResult :=
  {| Api.content := VStr (lit "Magnitude measures the energy released.");
     Api.enriched := VNull |}.




(** A snapshot whose message list ends with [null]. *)
Definition null_element_turn : record :=
  list_to_map [ (lit "action", VStr (lit "build_execute_query"));
                (lit "enriched_response", VNull);
                (lit "messages", VArr [message "ai" "Hi."; VNull]) ].



(** A snapshot whose [messages] is an object with a [length]. *)
Definition array_like_turn : record :=
  list_to_map [ (lit "action", VStr (lit "answer_question"));
                (lit "messages",
                 VObj (list_to_map [ (lit "0", message "ai" "Hi.");
                                     (lit "length", VNum 1) ])) ].

(** A stream that rejects with an [Error] whose message is empty. *)
Definition silent_failure : Api.stream := Api.Fail (ErrorObject []).

End Samples.

(** * Properties *)

(** ** Strings and values *)

Section JsFacts.

Lemma trimStart_nil_iff s :
  trimStart s = [] <-> Forall (fun c => is_white_space c = true) s.
Proof.
  induction s as [|c s IH]; simpl.
  - split; [constructor | done].
  - destruct (is_white_space c) eqn:Hc.
    + rewrite IH. split.
      * by constructor.
      * by inversion 1.
    + split; [done |]. inversion 1; congruence.
Qed.

Lemma trimStart_blank s :
  Forall (fun c => is_white_space c = true) s -> trimStart s = [].
Proof. apply trimStart_nil_iff. Qed.

(** What [trimStart] leaves starts with a character that is kept. *)
Lemma trimStart_blank_nil s :
  Forall (fun c => is_white_space c = true) (trimStart s) ->
  trimStart s = [].
Proof.
  induction s as [|c s IH]; simpl; [done |].
  destruct (is_white_space c) eqn:Hc; [done |].
  inversion 1; congruence.
Qed.

(** A string trims to the empty string exactly when it is blank. *)
Lemma trim_nil_iff s :
  trim s = [] <-> Forall (fun c => is_white_space c = true) s.
Proof.
  unfold trim, trimEnd. split.
  - intros H. apply trimStart_nil_iff, trimStart_blank_nil.
    apply (f_equal reverse) in H. rewrite reverse_involutive in H.
    change (reverse []) with (@nil N) in H.
    apply trimStart_nil_iff in H. by rewrite Forall_reverse in H.
  - intros H. rewrite (trimStart_blank s H). reflexivity.
Qed.

Lemma truthy_string_length s :
  truthy (VStr s) = (0 <? length s)%nat.
Proof. by destruct s. Qed.

Lemma truthy_not_nullish v : truthy v = true -> nullish_or v VUndef = v.
Proof. by destruct v. Qed.

End JsFacts.

(** ** [sendMessage] *)

Section ApiFacts.
Import Api.

(** *** The loop over the stream *)

Lemma collect_no_values (l : list StreamEvent) finalState :
  Forall (fun e => event e <> lit "values") l ->
  collect finalState (events l) = Return finalState.
Proof.
  induction 1 as [|e l He _ IH]; simpl; [done |].
  by rewrite bool_decide_eq_false_2.
Qed.

Lemma collect_app (pre l : list StreamEvent) finalState :
  exists finalState',
    collect finalState (events (pre ++ l)) = collect finalState' (events l).
Proof.
  revert finalState. induction pre as [|e pre IH]; intros fs; simpl.
  - by exists fs.
  - apply IH.
Qed.

Lemma collect_last_values pre ev post finalState :
  event ev = lit "values" ->
  Forall (fun e => event e <> lit "values") post ->
  collect finalState (events (pre ++ ev :: post)) = Return (data ev).
Proof.
  intros Hev Hpost.
  destruct (collect_app pre (ev :: post) finalState) as [fs ->].
  simpl. rewrite bool_decide_eq_true_2 by done.
  by apply collect_no_values.
Qed.

(** *** The loop over the messages *)

Lemma is_answer_there msg :
  nullish msg = false -> is_answer msg = Return (answers msg).
Proof.
  intros H. unfold is_answer, answers, prop. rewrite H. simpl.
  destruct (is_literal (field msg "type") "ai"); simpl; [done |].
  by destruct (is_literal (field msg "role") "assistant").
Qed.

Lemma is_answer_nullish msg :
  nullish msg = true -> is_answer msg = Throw (type_error msg "type").
Proof. intros H. unfold is_answer, prop. by rewrite H. Qed.

Lemma scan_prefix l l' n :
  n <= length l -> scan (VArr (l ++ l')) n = scan (VArr l) n.
Proof.
  induction n as [|i IH]; intros Hn; simpl; [done |].
  rewrite lookup_app_l by lia. rewrite IH by lia. done.
Qed.

(** One turn of the loop, at the last element. *)
Lemma scan_snoc l m :
  scan (VArr (l ++ [m])) (length (l ++ [m])) =
  found ← is_answer m;
  if found : bool then Return (content_of m) else scan (VArr l) (length l).
Proof.
  rewrite length_app, Nat.add_1_r. simpl.
  rewrite list_lookup_middle by done. simpl.
  by rewrite scan_prefix.
Qed.

Lemma answers_spec msg :
  answers msg = true <-> assistant_authored msg /\ has_text msg.
Proof.
  unfold answers, assistant_authored, has_text, is_literal.
  rewrite andb_true_iff, orb_true_iff. split.
  - intros [Hrole Htext]. split.
    + destruct Hrole as [H|H]; [left | right];
        (destruct (field msg _); try done);
        apply bool_decide_eq_true_1 in H; by subst.
    + destruct (field msg "content"); try done.
      exists s. split; [done |]. intros E. rewrite E in Htext. done.
  - intros [Hrole (c & Hc & Hne)]. split.
    + destruct Hrole as [-> | ->]; [left | right];
        by apply bool_decide_eq_true_2.
    + rewrite Hc. destruct (trim c); [done |]. done.
Qed.

Lemma answers_text msg :
  answers msg = true -> trim (content_of msg) <> [].
Proof.
  intros (_ & c & Hc & Hne)%answers_spec.
  unfold content_of. by rewrite Hc.
Qed.

Lemma assistant_authored_there msg :
  assistant_authored msg -> nullish msg = false.
Proof. by intros [H|H]; destruct msg. Qed.

Lemma no_answer_iff x :
  no_answer x <-> nullish x = false /\ answers x = false.
Proof.
  unfold no_answer. rewrite <- answers_spec.
  by destruct (answers x); intuition.
Qed.

(** The loop stops at the last element that is an answer ... *)
Lemma scan_found pre m post :
  assistant_authored m -> has_text m ->
  Forall no_answer post ->
  scan (VArr (pre ++ m :: post)) (length (pre ++ m :: post))
  = Return (content_of m).
Proof.
  intros Ha Ht. induction post as [|x post IH] using rev_ind; intros Hpost.
  - rewrite scan_snoc.
    rewrite (is_answer_there m (assistant_authored_there m Ha)).
    by rewrite (proj2 (answers_spec m)).
  - rewrite Forall_app, Forall_singleton in Hpost. destruct Hpost as [Hpost Hx].
    replace (pre ++ m :: post ++ [x]) with ((pre ++ m :: post) ++ [x])
      by (by rewrite <- app_assoc).
    rewrite scan_snoc. apply no_answer_iff in Hx as [Hx1 Hx2].
    rewrite (is_answer_there x Hx1), Hx2. by apply IH.
Qed.

(** ... ends with the empty string when no element is one ... *)
Lemma scan_nothing l :
  Forall no_answer l -> scan (VArr l) (length l) = Return [].
Proof.
  induction l as [|x l IH] using rev_ind; intros Hl; [done |].
  rewrite Forall_app, Forall_singleton in Hl. destruct Hl as [Hl Hx].
  rewrite scan_snoc. apply no_answer_iff in Hx as [Hx1 Hx2].
  rewrite (is_answer_there x Hx1), Hx2. by apply IH.
Qed.

(** ... and throws at an element that is not there. *)
Lemma scan_throws pre x post :
  nullish x = true ->
  Forall no_answer post ->
  scan (VArr (pre ++ x :: post)) (length (pre ++ x :: post))
  = Throw (type_error x "type").
Proof.
  intros Hnull. induction post as [|y post IH] using rev_ind; intros Hpost.
  - rewrite scan_snoc. by rewrite (is_answer_nullish x Hnull).
  - rewrite Forall_app, Forall_singleton in Hpost. destruct Hpost as [Hpost Hy].
    replace (pre ++ x :: post ++ [y]) with ((pre ++ x :: post) ++ [y])
      by (by rewrite <- app_assoc).
    rewrite scan_snoc. apply no_answer_iff in Hy as [Hy1 Hy2].
    rewrite (is_answer_there y Hy1), Hy2. by apply IH.
Qed.

Lemma latest_answer_middle pre m post :
  answers m = true ->
  Forall (fun x => answers x = false) post ->
  latest_answer (pre ++ m :: post) = Some m.
Proof.
  intros Hm Hpost. unfold latest_answer.
  rewrite filter_app, filter_cons, decide_True by done.
  assert (filter (fun x => answers x = true) post = []) as ->.
  { induction Hpost as [|x post Hx _ IH]; [done |].
    rewrite filter_cons, decide_False by congruence. done. }
  apply last_snoc.
Qed.

(** The latest answer splits the list. *)
Lemma latest_answer_split l :
  Forall (fun x => nullish x = false) l ->
  match latest_answer l with
  | Some m => exists pre post,
      l = pre ++ m :: post /\ answers m = true /\ Forall no_answer post
  | None => Forall no_answer l
  end.
Proof.
  induction l as [|x l IH] using rev_ind; intros Hl; [by constructor |].
  rewrite Forall_app, Forall_singleton in Hl. destruct Hl as [Hl Hx].
  specialize (IH Hl). destruct (answers x) eqn:Ha.
  - rewrite (latest_answer_middle l x [] Ha) by constructor.
    exists l, []. repeat split; [done | constructor].
  - assert (latest_answer (l ++ [x]) = latest_answer l) as ->.
    { unfold latest_answer.
      rewrite filter_app, filter_cons, filter_nil, decide_False
        by congruence.
      by rewrite app_nil_r. }
    assert (no_answer x) by by apply no_answer_iff.
    destruct (latest_answer l) as [m|].
    + destruct IH as (pre & post & -> & Hm & Hpost).
      exists pre, (post ++ [x]). rewrite <- app_assoc. simpl.
      repeat split; [done |]. apply Forall_app. split; [done |].
      by apply Forall_singleton.
    + apply Forall_app. split; [done |]. by apply Forall_singleton.
Qed.

(** On a list whose elements are all there, the loop returns the content of
    the latest answer. *)
Lemma scan_latest_answer l :
  Forall (fun x => nullish x = false) l ->
  scan (VArr l) (length l)
  = Return (from_option content_of [] (latest_answer l)).
Proof.
  intros Hl. pose proof (latest_answer_split l Hl) as H.
  destruct (latest_answer l) as [m|]; simpl.
  - destruct H as (pre & post & -> & Hm & Hpost).
    apply answers_spec in Hm as [? ?]. by apply scan_found.
  - by apply scan_nothing.
Qed.

(** *** After the loop over the stream *)

Lemma from_messages_array st l :
  has_messages st l ->
  from_messages st
  = Some (body ← scan (VArr l) (length l);
          Return {| content := VStr (or_no_response body);
                    enriched := VNull |}).
Proof.
  unfold from_messages. intros [-> | [Hnull ->]]; [done |].
  by destruct (get st "messages").
Qed.

Lemma or_no_response_text body :
  trim body <> [] -> or_no_response body = trim body.
Proof. intros H. unfold or_no_response. by rewrite bool_decide_eq_false_2. Qed.

(** What the supervisor-only path answers on a list whose elements are all
    there: the trimmed text of the latest answer, or the fixed sentence when
    there is none. *)
Lemma from_messages_latest st l :
  has_messages st l ->
  Forall (fun x => nullish x = false) l ->
  from_messages st =
  Some (Return {| content := VStr match latest_answer l with
                                  | Some m => trim (content_of m)
                                  | None => NO_RESPONSE
                                  end;
                  enriched := VNull |}).
Proof.
  intros Hst Hl. rewrite (from_messages_array st l Hst).
  rewrite (scan_latest_answer l Hl). simpl.
  pose proof (latest_answer_split l Hl) as H.
  destruct (latest_answer l) as [m|]; simpl; [| done].
  destruct H as (_ & _ & _ & Hm & _).
  by rewrite (or_no_response_text _ (answers_text m Hm)).
Qed.



Lemma answer_other_path st :
  takes_enriched st = false -> answer (Some st) = from_messages st.
Proof. unfold answer, takes_enriched. by intros ->. Qed.

Lemma sendMessage_final s finalState :
  final_snapshot s finalState -> sendMessage s = answer finalState.
Proof. unfold final_snapshot, sendMessage. by intros ->. Qed.

Lemma final_snapshot_events pre ev post :
  event ev = lit "values" ->
  Forall (fun e => event e <> lit "values") post ->
  final_snapshot (events (pre ++ ev :: post)) (data ev).
Proof. apply collect_last_values. Qed.

(** The result reads three properties of the snapshot and no other. *)
Lemma answer_reads_three_fields st1 st2 :
  get st1 "action" = get st2 "action" ->
  get st1 "enriched_response" = get st2 "enriched_response" ->
  get st1 "messages" = get st2 "messages" ->
  answer (Some st1) = answer (Some st2).
Proof.
  intros Ha He Hm. unfold answer, from_messages.
  by rewrite Ha, He, Hm.
Qed.

End ApiFacts.

(** ** The staleness rule and the last snapshot *)

Section Staleness.
Import Api.


Lemma is_literal_true v k :
  is_literal v k = true <-> v = VStr (lit k).
Proof.
  destruct v; simpl; try (split; [done | congruence]).
  rewrite bool_decide_eq_true. split; congruence.
Qed.




(** C2. The result of [sendMessage] is a function of the last ['values']
    event alone: whatever events -- earlier snapshots of the same Turn
    among them -- come before it, and whatever other events follow it, the
    result is the one computed from that event's data. *)
Theorem last_values_event_wins (pre post : list StreamEvent)
    (ev : StreamEvent) :
  event ev = lit "values" ->
  Forall (fun e => event e <> lit "values") post ->
  sendMessage (events (pre ++ ev :: post)) = answer (data ev)
  /\ sendMessage (events (pre ++ ev :: post)) = sendMessage (events [ev]).
Proof.
  intros Hev Hpost.
  pose proof (final_snapshot_events pre ev post Hev Hpost) as H.
  pose proof (final_snapshot_events [] ev [] Hev ltac:(constructor)) as H'.
  rewrite (sendMessage_final _ _ H). split; [done |].
  change ([] ++ ev :: []) with [ev] in H'.
  by rewrite (sendMessage_final _ _ H').
Qed.

Lemma last_values_event_wins_witness :
  event (Samples.values Samples.glossary_turn) = lit "values"
  /\ Forall (fun e => event e <> lit "values") [Samples.metadata]
  /\ sendMessage
       (events ([Samples.metadata; Samples.values Samples.data_turn]
                ++ Samples.values Samples.glossary_turn
                :: [Samples.metadata]))
     = answer (Some Samples.glossary_turn).
Proof.
  assert (H1 : event (Samples.values Samples.glossary_turn) = lit "values")
    by reflexivity.
  assert (H2 : Forall (fun e => event e <> lit "values") [Samples.metadata])
    by (repeat constructor; vm_compute; discriminate).
  split; [exact H1 | split; [exact H2 |]].
  exact (proj1 (last_values_event_wins
                  [Samples.metadata; Samples.values Samples.data_turn]
                  [Samples.metadata] _ H1 H2)).
Defined.

End Staleness.

(** ** The two branches of [sendMessage] *)

Section Branches.
Import Api.

Lemma truthy_there v : truthy v = true -> nullish v = false.
Proof. by destruct v. Qed.

Lemma answer_takes_enriched st v :
  get st "action" = VStr (lit "build_execute_query") ->
  get st "enriched_response" = v ->
  truthy v = true ->
  answer (Some st)
  = Some (Return {| content := field v "answer_text"; enriched := v |}).
Proof.
  intros Ha He Hv. unfold answer, prop. rewrite Ha, He, Hv.
  rewrite (truthy_there v Hv).
  by rewrite (proj2 (is_literal_true _ _)).
Qed.

Lemma enriched_fields_answer_text e :
  get (Types.enriched_fields e) "answer_text" = VStr (Types.answer_text e).
Proof. reflexivity. Qed.

(** The test on [enrichedRaw] is truthiness: an object always passes it,
    [null], [undefined] and the falsy primitives do not. *)
Lemma takes_enriched_iff st :
  takes_enriched st = true <->
  get st "action" = VStr (lit "build_execute_query")
  /\ truthy (get st "enriched_response") = true.
Proof.
  unfold takes_enriched. by rewrite andb_true_iff, is_literal_true.
Qed.

Example empty_string_is_no_bundle :
  takes_enriched (<[lit "enriched_response" := VStr []]> Samples.data_turn)
  = false.
Proof. reflexivity. Qed.

Example no_break_space_is_blank :
  trim [160; 32; 9; 8232]%N = [].
Proof. reflexivity. Qed.

(** C3. Whenever the final snapshot has [action = 'build_execute_query']
    and its [enriched_response] is an object, [sendMessage] returns that
    very object as [enriched] and its [answer_text] property as [content];
    for the object of an [AgentEnrichedResponse] bundle, [content] is the
    bundle's answer text. *)
Theorem fresh_enriched_response_returned (s : stream) (st o : record) :
  final_snapshot s (Some st) ->
  get st "action" = VStr (lit "build_execute_query") ->
  get st "enriched_response" = VObj o ->
  sendMessage s =
    Some (Return {| content := get o "answer_text"; enriched := VObj o |})
  /\ forall e : Types.AgentEnrichedResponse,
       o = Types.enriched_fields e ->
       sendMessage s =
         Some (Return {| content := VStr (Types.answer_text e);
                         enriched := Types.to_value e |}).
Proof.
  intros Hs Ha He. rewrite (sendMessage_final _ _ Hs).
  rewrite (answer_takes_enriched st (VObj o) Ha He eq_refl). simpl.
  split; [done |]. intros e ->.
  by rewrite enriched_fields_answer_text.
Qed.

Lemma fresh_enriched_response_returned_witness :
  final_snapshot Samples.data_stream (Some Samples.data_turn)
  /\ get Samples.data_turn "action" = VStr (lit "build_execute_query")
  /\ get Samples.data_turn "enriched_response"
     = VObj (Types.enriched_fields Samples.bundle)
  /\ sendMessage Samples.data_stream =
       Some (Return
               {| content :=
                    VStr (lit "There were 12 M6+ earthquakes this month.");
                  enriched := Types.to_value Samples.bundle |}).
Proof.
  assert (H1 : final_snapshot Samples.data_stream (Some Samples.data_turn))
    by (vm_compute; reflexivity).
  assert (H2 : get Samples.data_turn "action"
               = VStr (lit "build_execute_query")) by reflexivity.
  assert (H3 : get Samples.data_turn "enriched_response"
               = VObj (Types.enriched_fields Samples.bundle))
    by reflexivity.
  split; [exact H1 | split; [exact H2 | split; [exact H3 |]]].
  exact (proj2 (fresh_enriched_response_returned _ _ _ H1 H2 H3)
           Samples.bundle eq_refl).
Defined.

(** C8. The result of [sendMessage] depends on the properties [action],
    [enriched_response] and [messages] of the final snapshot and on nothing
    else: two final snapshots that agree on these three give the same
    content and the same enriched value, whatever else they hold and
    whatever the streams before them were. *)
Theorem result_depends_on_schema_fields (s1 s2 : stream)
    (st1 st2 : record) :
  final_snapshot s1 (Some st1) ->
  final_snapshot s2 (Some st2) ->
  get st1 "action" = get st2 "action" ->
  get st1 "enriched_response" = get st2 "enriched_response" ->
  get st1 "messages" = get st2 "messages" ->
  sendMessage s1 = sendMessage s2.
Proof.
  intros H1 H2 Ha He Hm.
  rewrite (sendMessage_final _ _ H1), (sendMessage_final _ _ H2).
  by apply answer_reads_three_fields.
Qed.

Lemma result_depends_on_schema_fields_witness :
  sendMessage Samples.glossary_stream =
  sendMessage
    (events [Samples.values
               (<[lit "parsed_intent" := VStr (lit "definition of magnitude")]>
                  (<[lit "eval_passed" := VBool false]>
                     Samples.glossary_turn))]).
Proof.
  apply (result_depends_on_schema_fields _ _ Samples.glossary_turn
           (<[lit "parsed_intent" := VStr (lit "definition of magnitude")]>
              (<[lit "eval_passed" := VBool false]>
                 Samples.glossary_turn)));
    vm_compute; reflexivity.
Defined.




End Branches.

(** ** The message branch *)

Section MessageBranch.
Import Api.




End MessageBranch.

(** ** The [AgentEnrichedResponse] contract *)

Section Contract.
Import Types.

Lemma mapM_as_string l : mapM as_string (VStr <$> l) = Some l.
Proof. by apply mapM_fmap_Some. Qed.

Lemma as_nullable_number_to_value n :
  as_nullable_number (nullable_number n) = Some n.
Proof. by destruct n. Qed.

Lemma APICallLog_round_trip c :
  APICallLog_of_value (APICallLog_to_value c) = Some c.
Proof.
  destruct c as [u t r a n k]. unfold APICallLog_of_value, APICallLog_to_value.
  change (get _ "url") with (VStr u).
  change (get _ "retrieved_at_utc") with (VStr t).
  change (get _ "result_type") with (VStr r).
  change (get _ "total_available") with (nullable_number a).
  change (get _ "returned") with (nullable_number n).
  change (get _ "count") with (nullable_number k).
  simpl. by rewrite !as_nullable_number_to_value.
Qed.

Lemma mapM_APICallLog l :
  mapM APICallLog_of_value (APICallLog_to_value <$> l) = Some l.
Proof. apply mapM_fmap_Some, APICallLog_round_trip. Qed.

Lemma as_category_to_value c : as_category (category_to_value c) = Some c.
Proof. by destruct c as [[]|]. Qed.

Lemma enriched_round_trip e : of_value (to_value e) = Some e.
Proof.
  destruct e as [i t p a c x s b f]. unfold of_value, to_value.
  change (get _ "request_id") with (VStr i).
  change (get _ "title") with (VStr t).
  change (get _ "parsed_intent") with (VStr p).
  change (get _ "assumptions") with (VArr (VStr <$> a)).
  change (get _ "api_calls") with (VArr (APICallLog_to_value <$> c)).
  change (get _ "answer_text") with (VStr x).
  change (get _ "eval_score") with (VNum s).
  change (get _ "eval_passed") with (VBool b).
  change (get _ "eval_failure_category") with (category_to_value f).
  simpl. rewrite mapM_as_string. simpl. rewrite mapM_APICallLog. simpl.
  by rewrite as_category_to_value.
Qed.

Lemma enriched_dom e :
  dom (enriched_fields e) = list_to_set (lit <$> contract_fields).
Proof. reflexivity. Qed.

(** C4. The object of an [AgentEnrichedResponse] carries exactly the nine
    contract properties -- [request_id], [title], [parsed_intent],
    [answer_text] strings, [assumptions] an array of strings (possibly
    empty), [api_calls] an array of [APICallLog] objects, [eval_score] a
    number, [eval_passed] a boolean, [eval_failure_category] one of
    ['misaligned_intent'], ['ungrounded_output'] or [null] -- and reading
    the nine properties at these types gives the bundle back. *)
Theorem enriched_response_contract (e : AgentEnrichedResponse) :
  dom (enriched_fields e) = list_to_set (lit <$> contract_fields)
  /\ of_value (to_value e) = Some e
  /\ get (enriched_fields e) "request_id" = VStr (request_id e)
  /\ get (enriched_fields e) "title" = VStr (title e)
  /\ get (enriched_fields e) "parsed_intent" = VStr (parsed_intent e)
  /\ get (enriched_fields e) "assumptions"
     = VArr (VStr <$> assumptions e)
  /\ get (enriched_fields e) "api_calls"
     = VArr (APICallLog_to_value <$> api_calls e)
  /\ get (enriched_fields e) "answer_text" = VStr (answer_text e)
  /\ get (enriched_fields e) "eval_score" = VNum (eval_score e)
  /\ get (enriched_fields e) "eval_passed" = VBool (eval_passed e)
  /\ (get (enriched_fields e) "eval_failure_category" = VNull
      \/ get (enriched_fields e) "eval_failure_category"
         = VStr (lit "misaligned_intent")
      \/ get (enriched_fields e) "eval_failure_category"
         = VStr (lit "ungrounded_output")).
Proof.
  split; [apply enriched_dom |]. split; [apply enriched_round_trip |].
  repeat (split; [reflexivity |]).
  change (get (enriched_fields e) "eval_failure_category")
    with (category_to_value (eval_failure_category e)).
  destruct (eval_failure_category e) as [[]|]; simpl; auto.
Qed.

End Contract.

(** ** [handleSend] and the input bar *)

Section Handlers.
Import Types App.

Lemma handleSend_call_loading f s :
  isLoading s = true -> handleSend_call f s = None.
Proof.
  intros H. unfold handleSend_call, returns_early. rewrite H.
  by rewrite orb_true_r.
Qed.

(** What a call of [handleSend] that gets past its guard has done by the
    time it awaits. *)
Lemma handleSend_call_Some f s s' rq :
  handleSend_call f s = Some (s', rq) ->
  isLoading s = false
  /\ isLoading s' = true
  /\ messages s' = messages s ++ [human_message f (trim (inputValue s))]
  /\ threadId s = Some (thread rq)
  /\ userMessage rq = trim (inputValue s)
  /\ trim (inputValue s) <> [].
Proof.
  unfold handleSend_call, returns_early. intros H.
  destruct (trim (inputValue s)) as [|c text] eqn:Htext; [done |].
  destruct (isLoading s); [done |].
  destruct (threadId s) as [[|c' t]|]; try done.
  simpl in H. injection H as <- <-. done.
Qed.

Lemma handleSend_settle_Return f res s :
  messages (handleSend_settle f (Return res) s)
    = messages s ++ [assistant_message f res]
  /\ isLoading (handleSend_settle f (Return res) s) = false
  /\ error (handleSend_settle f (Return res) s) = error s.
Proof. done. Qed.

Lemma handleSend_settle_Throw f err s :
  messages (handleSend_settle f (Throw err) s) = messages s
  /\ isLoading (handleSend_settle f (Throw err) s) = false
  /\ error (handleSend_settle f (Throw err) s) = Some (error_message err).
Proof. done. Qed.

Lemma handleKeyDown_loading p e :
  InputBar.isLoading p = true ->
  InputBar.onSend (InputBar.handleKeyDown p e) = false.
Proof.
  intros H. unfold InputBar.handleKeyDown. rewrite H.
  by destruct (_ && _).
Qed.

Lemma canSend_loading p :
  InputBar.isLoading p = true -> InputBar.canSend p = false.
Proof. intros H. unfold InputBar.canSend. by rewrite H. Qed.

End Handlers.

(** ** Turns, one after the other *)

Section Turns.
Import Types App Session.

Lemma send_loading f sys :
  isLoading (app sys) = true -> send f sys = sys.
Proof. intros H. unfold send. by rewrite handleSend_call_loading. Qed.

(** While a Turn is in flight nothing but its settling touches the
    messages, the flag or the calls in flight. *)
Lemma step_quiet_loading ev sys sys' :
  isLoading (app sys) = true ->
  quiet ev = true ->
  step ev sys = Some sys' ->
  isLoading (app sys') = true
  /\ messages (app sys') = messages (app sys)
  /\ in_flight sys' = in_flight sys.
Proof.
  intros Hload Hq Hstep. destruct ev as [e f|f|text| |strm f|r]; simpl in *.
  - rewrite handleKeyDown_loading in Hstep by done. by injection Hstep as <-.
  - rewrite send_loading in Hstep by done. by injection Hstep as <-.
  - by injection Hstep as <-.
  - unfold InputBar.new_chat_disabled in Hstep. simpl in Hstep.
    by rewrite Hload in Hstep.
  - done.
  - destruct (connecting sys); [done |]. injection Hstep as <-.
    by destruct r.
Qed.

Lemma run_quiet_loading evs sys sys' :
  isLoading (app sys) = true ->
  Forall (fun ev => quiet ev = true) evs ->
  run evs sys = Some sys' ->
  isLoading (app sys') = true
  /\ messages (app sys') = messages (app sys)
  /\ in_flight sys' = in_flight sys.
Proof.
  intros Hload Hq. revert sys Hload.
  induction Hq as [|ev evs Hev _ IH]; intros sys Hload Hrun; simpl in Hrun.
  - by injection Hrun as <-.
  - destruct (step ev sys) as [sys1|] eqn:Hstep; [| done].
    destruct (step_quiet_loading _ _ _ Hload Hev Hstep) as (H1 & H2 & H3).
    destruct (IH _ H1 Hrun) as (? & ? & ?).
    repeat split; congruence.
Qed.

Lemma send_starts f sys sys' :
  send f sys = sys' ->
  isLoading (app sys) = false -> isLoading (app sys') = true ->
  exists rq, handleSend_call f (app sys) = Some (app sys', rq)
             /\ in_flight sys' = in_flight sys ++ [rq].
Proof.
  unfold send. intros <- Hoff Hon.
  destruct (handleSend_call f (app sys)) as [[s rq]|] eqn:Hcall.
  - by exists rq.
  - congruence.
Qed.

(** What the settling of a [sendMessage] call does. *)
Lemma step_settle_inv strm f sys sys' :
  step (StreamEnds strm f) sys = Some sys' ->
  exists rq rest r,
    in_flight sys = rq :: rest
    /\ Api.sendMessage strm = Some r
    /\ sys' = {| app := handleSend_settle f r (app sys);
                 in_flight := rest; connecting := connecting sys |}.
Proof.
  simpl. destruct (in_flight sys) as [|rq rest]; [done |].
  destruct (Api.sendMessage strm) as [r|]; [| done].
  intros [= <-]. by exists rq, rest, r.
Qed.

(** A Turn is started by a call of [handleSend] that gets past its guard,
    and by nothing else. *)
Lemma starts_turn_inv ev sys sys' :
  starts_turn ev sys sys' ->
  exists f rq, handleSend_call f (app sys) = Some (app sys', rq)
               /\ in_flight sys' = in_flight sys ++ [rq].
Proof.
  intros (Hstep & Hoff & Hon).
  destruct ev as [e f|f|text| |strm f|r]; simpl in Hstep.
  - injection Hstep as Hstep. exists f.
    destruct (InputBar.onSend _).
    + by apply send_starts.
    + congruence.
  - injection Hstep as Hstep. exists f. by apply send_starts.
  - injection Hstep as <-. simpl in Hon. congruence.
  - rewrite Hoff in Hstep. injection Hstep as <-. simpl in Hon. congruence.
  - apply step_settle_inv in Hstep as (rq & rest & r & _ & _ & ->).
    simpl in Hon. by destruct r.
  - destruct (connecting sys); [done |]. injection Hstep as <-.
    destruct r; simpl in Hon; congruence.
Qed.

Lemma step_consistent ev sys sys' :
  consistent sys -> step ev sys = Some sys' -> consistent sys'.
Proof.
  unfold consistent. intros Hc Hstep.
  destruct (isLoading (app sys)) eqn:Hload.
  - destruct (quiet ev) eqn:Hq.
    + destruct (step_quiet_loading _ _ _ Hload Hq Hstep) as (-> & _ & ->).
      done.
    + destruct ev; try done.
      apply step_settle_inv in Hstep as (rq & rest & r & Hin & _ & ->).
      rewrite Hin in Hc. destruct rest; [| done]. simpl. by destruct r.
  - destruct (isLoading (app sys')) eqn:Hload'.
    + destruct (starts_turn_inv ev sys sys') as (f & rq & _ & ->); [done |].
      rewrite length_app, Hc. done.
    + destruct ev as [e f|f|text| |strm f|r]; simpl in Hstep.
      * destruct (InputBar.onSend _); [| congruence].
        injection Hstep as Hstep. unfold send in Hstep.
        destruct (handleSend_call f (app sys)) as [[s rq]|] eqn:Hcall;
          [| congruence].
        apply handleSend_call_Some in Hcall as (_ & Hon & _).
        subst sys'. simpl in Hload'. congruence.
      * injection Hstep as Hstep. unfold send in Hstep.
        destruct (handleSend_call f (app sys)) as [[s rq]|] eqn:Hcall;
          [| congruence].
        apply handleSend_call_Some in Hcall as (_ & Hon & _).
        subst sys'. simpl in Hload'. congruence.
      * by injection Hstep as <-.
      * rewrite Hload in Hstep. by injection Hstep as <-.
      * destruct (in_flight sys); done.
      * destruct (connecting sys); [done |]. by injection Hstep as <-.
Qed.

Lemma run_consistent evs sys sys' :
  consistent sys -> run evs sys = Some sys' -> consistent sys'.
Proof.
  revert sys. induction evs as [|ev evs IH]; intros sys Hc Hrun;
    simpl in Hrun.
  - by injection Hrun as <-.
  - destruct (step ev sys) as [sys1|] eqn:Hstep; [| done].
    eauto using step_consistent.
Qed.

Lemma start_consistent : consistent start.
Proof. done. Qed.

End Turns.

(** ** What a Turn does to the message list *)

Section TurnOutcome.
Import Types App Session.

(** From the start of a Turn to the state in which it settles. *)
Lemma turn_in_flight ev sys sys1 evs sys2 :
  starts_turn ev sys sys1 ->
  Forall (fun ev => quiet ev = true) evs ->
  run evs sys1 = Some sys2 ->
  exists f1,
    messages (app sys2)
      = messages (app sys)
          ++ [human_message f1 (trim (inputValue (app sys)))]
    /\ isLoading (app sys2) = true.
Proof.
  intros Hstart Hq Hrun.
  destruct (starts_turn_inv _ _ _ Hstart) as (f1 & rq & Hcall & _).
  apply handleSend_call_Some in Hcall as (_ & Hon & Hmsgs & _).
  destruct (run_quiet_loading _ _ _ Hon Hq Hrun) as (Hload & Hsame & _).
  exists f1. split; congruence.
Qed.

Lemma settle_inv strm f r sys sys' :
  step (StreamEnds strm f) sys = Some sys' ->
  Api.sendMessage strm = Some r ->
  app sys' = handleSend_settle f r (app sys).
Proof.
  intros (rq & rest & r' & _ & Hr & ->)%step_settle_inv Hr'.
  rewrite Hr in Hr'. by injection Hr' as ->.
Qed.

(** C7. A Turn that completes -- [handleSend] gets past its guard, and the
    [sendMessage] call it awaits returns -- leaves the message list as it
    was before the Turn, followed by exactly two entries: the human
    message with the trimmed input, then the assistant message with the
    returned content.  Nothing that can happen in between changes the
    list. *)
Theorem turn_appends_human_then_assistant
    (sys sys1 sys2 sys3 : System) (ev : Event) (evs : list Event)
    (strm : Api.stream) (f2 : Fresh) (res : Api.SendMessageResult) :
  starts_turn ev sys sys1 ->
  Forall (fun ev => quiet ev = true) evs ->
  run evs sys1 = Some sys2 ->
  step (StreamEnds strm f2) sys2 = Some sys3 ->
  Api.sendMessage strm = Some (Return res) ->
  exists f1,
    messages (app sys3)
      = messages (app sys)
          ++ [ human_message f1 (trim (inputValue (app sys)));
               assistant_message f2 res ].
Proof.
  intros Hstart Hq Hrun Hsettle Hres.
  destruct (turn_in_flight _ _ _ _ _ Hstart Hq Hrun) as (f1 & Hmsgs & _).
  exists f1. rewrite (settle_inv _ _ _ _ _ Hsettle Hres).
  rewrite (proj1 (handleSend_settle_Return _ _ _)), Hmsgs.
  by rewrite <- app_assoc.
Qed.

Lemma turn_appends_human_then_assistant_witness :
  starts_turn (KeyDown Samples.enter (Samples.fresh 3))
    Samples.first_visit Samples.asked
  /\ Forall (fun ev => quiet ev = true) Samples.meanwhile
  /\ run Samples.meanwhile Samples.asked = Some Samples.waiting
  /\ step (StreamEnds Samples.glossary_stream (Samples.fresh 6))
       Samples.waiting
     = Some (Samples.settled (Return Samples.glossary_answer))
  /\ Api.sendMessage Samples.glossary_stream
     = Some (Return Samples.glossary_answer)
  /\ exists f1,
       messages (app (Samples.settled (Return Samples.glossary_answer)))
         = messages Samples.ready
             ++ [ human_message f1 (lit "What does magnitude mean?");
                  assistant_message (Samples.fresh 6)
                    Samples.glossary_answer ].
Proof.
  assert (H1 : starts_turn (KeyDown Samples.enter (Samples.fresh 3))
                 Samples.first_visit Samples.asked)
    by (repeat split; vm_compute; reflexivity).
  assert (H2 : Forall (fun ev => quiet ev = true) Samples.meanwhile)
    by (repeat constructor).
  assert (H3 : run Samples.meanwhile Samples.asked = Some Samples.waiting)
    by (vm_compute; reflexivity).
  assert (H4 : step (StreamEnds Samples.glossary_stream (Samples.fresh 6))
                 Samples.waiting
               = Some (Samples.settled (Return Samples.glossary_answer)))
    by (vm_compute; reflexivity).
  assert (H5 : Api.sendMessage Samples.glossary_stream
               = Some (Return Samples.glossary_answer))
    by (vm_compute; reflexivity).
  split; [exact H1 | split; [exact H2 | split; [exact H3 |
    split; [exact H4 | split; [exact H5 |]]]]].
  exact (turn_appends_human_then_assistant _ _ _ _ _ _ _ _ _
           H1 H2 H3 H4 H5).
Defined.

(** X19. A Turn in which [sendMessage] throws appends no assistant message
    and attaches no enriched response: settling leaves the message list
    untouched, so it is the list from before the Turn -- every entry as it
    was -- followed by the Turn's own human message, which carries
    nothing; the [error] cell gets the [message] of the [Error] thrown, else
    the fixed sentence, and [isLoading] is switched off. *)
Theorem failed_turn_adds_no_answer
    (sys sys1 sys2 sys3 : System) (ev : Event) (evs : list Event)
    (strm : Api.stream) (f2 : Fresh) (err : thrown) :
  starts_turn ev sys sys1 ->
  Forall (fun ev => quiet ev = true) evs ->
  run evs sys1 = Some sys2 ->
  step (StreamEnds strm f2) sys2 = Some sys3 ->
  Api.sendMessage strm = Some (Throw err) ->
  messages (app sys3) = messages (app sys2)
  /\ (exists f1,
        messages (app sys3)
          = messages (app sys)
              ++ [human_message f1 (trim (inputValue (app sys)))])
  /\ error (app sys3) = Some (error_message err)
  /\ isLoading (app sys3) = false.
Proof.
  intros Hstart Hq Hrun Hsettle Herr.
  destruct (turn_in_flight _ _ _ _ _ Hstart Hq Hrun) as (f1 & Hmsgs & _).
  rewrite (settle_inv _ _ _ _ _ Hsettle Herr).
  destruct (handleSend_settle_Throw f2 err (app sys2)) as (-> & -> & ->).
  repeat split; [| done..]. by exists f1.
Qed.

Lemma failed_turn_adds_no_answer_witness :
  starts_turn (KeyDown Samples.enter (Samples.fresh 3))
    Samples.first_visit Samples.asked
  /\ Forall (fun ev => quiet ev = true) Samples.meanwhile
  /\ run Samples.meanwhile Samples.asked = Some Samples.waiting
  /\ step (StreamEnds Samples.unreachable (Samples.fresh 6)) Samples.waiting
     = Some (Samples.settled (Throw (ErrorObject (lit "Failed to fetch"))))
  /\ Api.sendMessage Samples.unreachable
     = Some (Throw (ErrorObject (lit "Failed to fetch")))
  /\ messages
       (app (Samples.settled (Throw (ErrorObject (lit "Failed to fetch")))))
     = messages (app Samples.waiting)
  /\ error
       (app (Samples.settled (Throw (ErrorObject (lit "Failed to fetch")))))
     = Some (lit "Failed to fetch").
Proof.
  assert (H1 : starts_turn (KeyDown Samples.enter (Samples.fresh 3))
                 Samples.first_visit Samples.asked)
    by (repeat split; vm_compute; reflexivity).
  assert (H2 : Forall (fun ev => quiet ev = true) Samples.meanwhile)
    by (repeat constructor).
  assert (H3 : run Samples.meanwhile Samples.asked = Some Samples.waiting)
    by (vm_compute; reflexivity).
  assert (H4 : step (StreamEnds Samples.unreachable (Samples.fresh 6))
                 Samples.waiting
               = Some (Samples.settled
                         (Throw (ErrorObject (lit "Failed to fetch")))))
    by (vm_compute; reflexivity).
  assert (H5 : Api.sendMessage Samples.unreachable
               = Some (Throw (ErrorObject (lit "Failed to fetch"))))
    by reflexivity.
  split; [exact H1 | split; [exact H2 | split; [exact H3 |
    split; [exact H4 | split; [exact H5 |]]]]].
  destruct (failed_turn_adds_no_answer _ _ _ _ _ _ _ _ _ H1 H2 H3 H4 H5)
    as (Hm & _ & He & _).
  split; [exact Hm | exact He].
Defined.

End TurnOutcome.

(** ** One Turn at a time *)

Section Sequential.
Import Types App Session.

Lemma handleSend_loading runs_stream f1 f2 s :
  isLoading s = true -> handleSend runs_stream f1 f2 s = Some s.
Proof. intros H. unfold handleSend. by rewrite handleSend_call_loading. Qed.

Lemma reachable_consistent evs sys :
  run evs start = Some sys -> consistent sys.
Proof. apply run_consistent, start_consistent. Qed.

(** C6. While [isLoading] is set no Turn can be started.  [handleSend]
    returns at once: it changes nothing and makes no [sendMessage] call;
    [handleKeyDown] does not call [onSend], on Enter or any other key, and
    the send button is disabled.  So in every state the page can reach at
    most one [sendMessage] call is in flight, one is in flight exactly
    while [isLoading] is set, and until that call settles no event adds
    another. *)
Theorem no_turn_starts_while_loading :
  (forall (f : Fresh) (s : State),
     isLoading s = true -> handleSend_call f s = None)
  /\ (forall runs_stream (f1 f2 : Fresh) (s : State),
        isLoading s = true -> handleSend runs_stream f1 f2 s = Some s)
  /\ (forall (p : InputBar.Props) (e : InputBar.KeyboardEvent),
        InputBar.isLoading p = true ->
        InputBar.onSend (InputBar.handleKeyDown p e) = false
        /\ InputBar.canSend p = false
        /\ InputBar.send_disabled p = true)
  /\ (forall (evs : list Event) (sys : System),
        run evs start = Some sys ->
        length (in_flight sys) <= 1
        /\ (isLoading (app sys) = true <-> in_flight sys <> []))
  /\ (forall (ev : Event) (sys sys' : System),
        isLoading (app sys) = true ->
        quiet ev = true ->
        step ev sys = Some sys' ->
        in_flight sys' = in_flight sys /\ isLoading (app sys') = true).
Proof.
  split; [| split; [| split; [| split]]].
  - intros f s. apply handleSend_call_loading.
  - intros rs f1 f2 s. apply handleSend_loading.
  - intros p e H. unfold InputBar.send_disabled.
    by rewrite handleKeyDown_loading, canSend_loading.
  - intros evs sys Hrun. apply reachable_consistent in Hrun.
    unfold consistent in Hrun.
    destruct (isLoading (app sys)), (in_flight sys) as [|rq [|rq' rest]];
      simpl in Hrun; try done; (split; [simpl; lia | split; done]).
  - intros ev sys sys' Hload Hq Hstep.
    by destruct (step_quiet_loading _ _ _ Hload Hq Hstep) as (? & _ & ?).
Qed.

Lemma no_turn_starts_while_loading_witness :
  isLoading (app Samples.first_question) = true
  /\ run Samples.visit start = Some Samples.first_question
  /\ handleSend_call (Samples.fresh 4) (app Samples.first_question) = None
  /\ InputBar.onSend
       (InputBar.handleKeyDown
          (inputBarProps (app Samples.first_question)) Samples.enter)
     = false
  /\ InputBar.send_disabled (inputBarProps (app Samples.first_question))
     = true
  /\ length (in_flight Samples.first_question) <= 1
  /\ in_flight Samples.first_question <> [].
Proof.
  assert (H1 : isLoading (app Samples.first_question) = true)
    by reflexivity.
  assert (H2 : run Samples.visit start = Some Samples.first_question)
    by (vm_compute; reflexivity).
  destruct no_turn_starts_while_loading as (Ha & _ & Hb & Hc & _).
  destruct (Hb (inputBarProps (app Samples.first_question)) Samples.enter H1)
    as (Hb1 & _ & Hb2).
  destruct (Hc _ _ H2) as (Hc1 & Hc2).
  split; [exact H1 | split; [exact H2 | split; [exact (Ha _ _ H1) |
    split; [exact Hb1 | split; [exact Hb2 | split; [exact Hc1 |]]]]]].
  exact (proj1 Hc2 H1).
Defined.

End Sequential.

(** * Further properties of the code *)

(** ** [trim] *)

Section TrimFacts.

Lemma trimStart_split s :
  exists k, s = k ++ trimStart s /\ Forall (fun c => is_white_space c = true) k.
Proof.
  induction s as [|c s (k & Hk & Hws)]; simpl.
  - by exists [].
  - destruct (is_white_space c) eqn:Hc.
    + exists (c :: k). split; [by rewrite Hk at 1 | by constructor].
    + by exists [].
Qed.

Lemma trimStart_head s c t :
  trimStart s = c :: t -> is_white_space c = false.
Proof.
  induction s as [|x s IH]; simpl; [done |].
  destruct (is_white_space x) eqn:Hx; [done |]. by intros [= <- _].
Qed.

Lemma trimStart_kept c t :
  is_white_space c = false -> trimStart (c :: t) = c :: t.
Proof. simpl. by intros ->. Qed.

Lemma trimStart_idem s : trimStart (trimStart s) = trimStart s.
Proof.
  destruct (trimStart s) as [|c t] eqn:E; [done |].
  by rewrite (trimStart_kept c t (trimStart_head _ _ _ E)).
Qed.

Lemma trimEnd_split s :
  exists k, s = trimEnd s ++ k /\ Forall (fun c => is_white_space c = true) k.
Proof.
  destruct (trimStart_split (reverse s)) as (k & Hk & Hws).
  exists (reverse k). split; [| by apply Forall_reverse].
  unfold trimEnd. rewrite <- reverse_app, <- Hk. by rewrite reverse_involutive.
Qed.

Lemma trimEnd_idem s : trimEnd (trimEnd s) = trimEnd s.
Proof.
  unfold trimEnd. by rewrite reverse_involutive, trimStart_idem.
Qed.

(** Trimming the end of a string that starts with a kept character leaves
    that character in front. *)
Lemma trimEnd_head c t :
  is_white_space c = false -> exists t', trimEnd (c :: t) = c :: t'.
Proof.
  intros Hc. destruct (trimEnd_split (c :: t)) as (k & Hk & Hws).
  destruct (trimEnd (c :: t)) as [|c' t'].
  - simpl in Hk. subst k. inversion Hws; congruence.
  - injection Hk as <- _. by exists t'.
Qed.

Lemma trim_nil : trim [] = [].
Proof. reflexivity. Qed.

(** [s.trim().trim()] is [s.trim()]. *)
Lemma trim_idem s : trim (trim s) = trim s.
Proof.
  unfold trim. destruct (trimStart s) as [|c t] eqn:E; [done |].
  pose proof (trimStart_head _ _ _ E) as Hc.
  destruct (trimEnd_head c t Hc) as (t' & Ht).
  rewrite Ht, (trimStart_kept c t' Hc), <- Ht. apply trimEnd_idem.
Qed.

End TrimFacts.

(** ** [sendMessage]: failing streams, other events, the text returned *)

Section SendMessageMore.
Import Api.






Lemma collect_events l finalState :
  collect finalState (events l) =
  Return match last (filter (fun ev => event ev = lit "values") l) with
         | Some ev => data ev
         | None => finalState
         end.
Proof.
  revert finalState. induction l as [|ev l IH]; intros fs; simpl; [done |].
  rewrite IH, filter_cons. case_bool_decide as Hev.
  - rewrite decide_True by done. rewrite last_cons.
    by destruct (last (filter _ l)).
  - by rewrite decide_False by done.
Qed.

(** X2. For a stream that ends, the result is computed from the data of the
    last ['values'] event, or from no snapshot when there is none; events of
    any other kind can be dropped from the stream without changing it. *)
Theorem other_events_are_ignored (l : list StreamEvent) :
  sendMessage (events l)
    = answer (last (filter (fun ev => event ev = lit "values") l) ≫= data)
  /\ sendMessage (events l)
     = sendMessage (events (filter (fun ev => event ev = lit "values") l)).
Proof.
  assert (H : forall l',
    sendMessage (events l')
    = answer (last (filter (fun ev => event ev = lit "values") l')
              ≫= data)).
  { intros l'. unfold sendMessage. rewrite collect_events.
    by destruct (last (filter _ l')). }
  split; [apply H |].
  rewrite (H l), (H (filter _ l)). by rewrite list_filter_filter_l.
Qed.

Lemma NO_RESPONSE_trimmed : trim NO_RESPONSE = NO_RESPONSE.
Proof. reflexivity. Qed.

Lemma or_no_response_trimmed body :
  or_no_response body <> []
  /\ trim (or_no_response body) = or_no_response body.
Proof.
  unfold or_no_response. case_bool_decide as Hbody.
  - by split; [| apply NO_RESPONSE_trimmed].
  - split; [done | apply trim_idem].
Qed.

Lemma from_messages_return st res :
  from_messages st = Some (Return res) ->
  exists c,
    res = {| content := VStr c; enriched := VNull |}
    /\ c <> [] /\ trim c = c.
Proof.
  unfold from_messages.
  destruct (nullish (nullish_or _ _)); [done |].
  destruct (iterations _) as [n|]; simpl; [| done].
  destruct (scan _ n) as [body|e]; simpl; [| done].
  intros [= <-]. eexists. split; [done |]. apply or_no_response_trimmed.
Qed.

(** X3. Off the bundle branch (no snapshot included), whatever
    [sendMessage] returns has as content a string that is not empty and has
    no white space at either end, and [enriched] is [null].  It does return
    when there is no snapshot, and when the messages are absent, [null] or
    an array none of whose elements is [null] or [undefined]. *)
Theorem message_branch_text_is_trimmed (finalState : option record) :
  (forall st, finalState = Some st -> takes_enriched st = false) ->
  (forall res : SendMessageResult,
     answer finalState = Some (Return res) ->
     exists c,
       res = {| content := VStr c; enriched := VNull |}
       /\ c <> [] /\ trim c = c)
  /\ (forall (st : record) (l : list jsvalue),
        finalState = Some st ->
        has_messages st l ->
        Forall (fun x => nullish x = false) l ->
        exists res, answer finalState = Some (Return res))
  /\ (finalState = None -> answer finalState = Some (Return no_response)).
Proof.
  intros Hpath. split; [| split].
  - intros res. destruct finalState as [st|].
    + rewrite (answer_other_path st (Hpath st eq_refl)).
      apply from_messages_return.
    + simpl. intros [= <-]. exists NO_RESPONSE.
      by split; [| split; [| apply NO_RESPONSE_trimmed]].
  - intros st l -> Hl Hthere.
    rewrite (answer_other_path st (Hpath st eq_refl)).
    rewrite (from_messages_latest st l Hl Hthere). eauto.
  - by intros ->.
Qed.

Lemma message_branch_text_is_trimmed_witness :
  (forall st, Some Samples.array_like_turn = Some st ->
              takes_enriched st = false)
  /\ answer (Some Samples.array_like_turn)
     = Some (Return {| content := VStr (lit "Hi."); enriched := VNull |})
  /\ exists c,
       {| content := VStr (lit "Hi."); enriched := VNull |}
       = {| content := VStr c; enriched := VNull |}
       /\ c <> [] /\ trim c = c.
Proof.
  assert (H1 : forall st, Some Samples.array_like_turn = Some st ->
                          takes_enriched st = false)
    by (intros st [= <-]; reflexivity).
  assert (H2 : answer (Some Samples.array_like_turn)
               = Some (Return {| content := VStr (lit "Hi.");
                                 enriched := VNull |}))
    by (vm_compute; reflexivity).
  split; [exact H1 | split; [exact H2 |]].
  exact (proj1 (message_branch_text_is_trimmed _ H1) _ H2).
Defined.

(** X4. When the bundle branch is taken the messages of the snapshot play no
    part: a snapshot with the same [action] and [enriched_response] gives
    the same result, whatever its messages are. *)
Theorem bundle_branch_ignores_messages (st1 st2 : record) :
  takes_enriched st1 = true ->
  get st1 "action" = get st2 "action" ->
  get st1 "enriched_response" = get st2 "enriched_response" ->
  answer (Some st1) = answer (Some st2).
Proof.
  unfold takes_enriched, answer. intros H Ha He.
  by rewrite <- Ha, <- He, H.
Qed.

Lemma bundle_branch_ignores_messages_witness :
  takes_enriched Samples.data_turn = true
  /\ answer (Some Samples.data_turn)
     = answer (Some (<[lit "messages" := VArr [VNull]]>
                       Samples.data_turn)).
Proof.
  assert (H : takes_enriched Samples.data_turn = true) by reflexivity.
  split; [exact H |].
  apply (bundle_branch_ignores_messages _ _ H); reflexivity.
Defined.

(** X17. On the message branch a [null] (or [undefined]) element of the
    message array that the loop reaches before any answer -- every element
    after it is there and fails the loop's test -- makes [sendMessage] throw
    the [TypeError] of reading [type] of that element, whatever comes
    before it in the array. *)
Theorem null_element_throws
    (s : stream) (st : record) (pre post : list jsvalue) (x : jsvalue) :
  final_snapshot s (Some st) ->
  takes_enriched st = false ->
  get st "messages" = VArr (pre ++ x :: post) ->
  nullish x = true ->
  Forall no_answer post ->
  sendMessage s = Some (Throw (type_error x "type")).
Proof.
  intros Hs Hpath Hl Hx Hpost.
  rewrite (sendMessage_final _ _ Hs), (answer_other_path _ Hpath).
  rewrite (from_messages_array st _ (or_introl Hl)).
  by rewrite (scan_throws pre x post Hx Hpost).
Qed.

Lemma null_element_throws_witness :
  final_snapshot (events [Samples.values Samples.null_element_turn])
    (Some Samples.null_element_turn)
  /\ takes_enriched Samples.null_element_turn = false
  /\ get Samples.null_element_turn "messages"
     = VArr ([Samples.message "ai" "Hi."] ++ VNull :: [])
  /\ sendMessage (events [Samples.values Samples.null_element_turn])
     = Some (Throw (type_error VNull "type")).
Proof.
  assert (H1 : final_snapshot
                 (events [Samples.values Samples.null_element_turn])
                 (Some Samples.null_element_turn)) by reflexivity.
  assert (H2 : takes_enriched Samples.null_element_turn = false)
    by reflexivity.
  assert (H3 : get Samples.null_element_turn "messages"
               = VArr ([Samples.message "ai" "Hi."] ++ VNull :: []))
    by reflexivity.
  split; [exact H1 | split; [exact H2 | split; [exact H3 |]]].
  exact (null_element_throws _ _ _ _ _ H1 H2 H3 eq_refl (Forall_nil_2 _)).
Defined.

Lemma scan_array_like (o : record) (l : list jsvalue) n :
  (forall i x, l !! i = Some x -> o !! lit (pretty i) = Some x) ->
  n <= length l ->
  scan (VObj o) n = scan (VArr l) n.
Proof.
  intros Ho. induction n as [|i IH]; intros Hn; simpl; [done |].
  destruct (lookup_lt_is_Some_2 l i) as [x Hx]; [lia |].
  rewrite Hx, (Ho i x Hx). simpl. by rewrite IH by lia.
Qed.

(** X18. The loop takes [messages] as it finds it: an object with a
    [length] (a number up to 2^53) and the elements under the decimal names
    of their positions is answered from exactly like the array of those
    elements. *)
Theorem array_like_messages
    (st o : record) (l : list jsvalue) :
  get st "messages" = VObj o ->
  get o "length" = VNum (Z.of_nat (length l)) ->
  (Z.of_nat (length l) <= 2 ^ 53)%Z ->
  (forall i x, l !! i = Some x -> o !! lit (pretty i) = Some x) ->
  answer (Some st) = answer (Some (<[lit "messages" := VArr l]> st)).
Proof.
  intros Hm Hlen Hbound Ho.
  assert (Hne : forall k : string,
            lit "messages" <> lit k ->
            get (<[lit "messages" := VArr l]> st) k = get st k).
  { intros k Hk. unfold get. by rewrite lookup_insert_ne. }
  unfold answer.
  rewrite (Hne "action") by (vm_compute; discriminate).
  rewrite (Hne "enriched_response") by (vm_compute; discriminate).
  destruct (is_literal _ _ && truthy _); [done |].
  unfold from_messages. rewrite Hm.
  assert (get (<[lit "messages" := VArr l]> st) "messages" = VArr l) as ->.
  { unfold get. by rewrite lookup_insert_eq. }
  simpl. rewrite Hlen.
  rewrite (proj2 (Z.leb_le _ _) Hbound), Nat2Z.id. simpl.
  by rewrite (scan_array_like o l (length l) Ho).
Qed.

Lemma array_like_messages_witness :
  get Samples.array_like_turn "messages"
  = VObj (list_to_map [ (lit "0", Samples.message "ai" "Hi.");
                        (lit "length", VNum 1) ])
  /\ answer (Some Samples.array_like_turn)
     = answer (Some (<[lit "messages" := VArr [Samples.message "ai" "Hi."]]>
                       Samples.array_like_turn))
  /\ answer (Some Samples.array_like_turn)
     = Some (Return {| content := VStr (lit "Hi."); enriched := VNull |}).
Proof.
  assert (H1 : get Samples.array_like_turn "messages"
               = VObj (list_to_map [ (lit "0", Samples.message "ai" "Hi.");
                                     (lit "length", VNum 1) ]))
    by reflexivity.
  split; [exact H1 | split; [| vm_compute; reflexivity]].
  apply (array_like_messages _ _ [Samples.message "ai" "Hi."] H1).
  - reflexivity.
  - vm_compute. discriminate.
  - intros [|i] x Hx; [| done]. injection Hx as <-. reflexivity.
Defined.

End SendMessageMore.

(** ** From the snapshot to the bubble *)

Section Rendering.
Import Api.

(** X5. Take what [sendMessage] returns for a final snapshot and the
    assistant message [handleSend] builds from it.  Off the bundle branch,
    a bundle left over from an earlier Turn included, it is rendered as the
    plain assistant bubble with the returned text.  On the bundle branch,
    with the snapshot's [enriched_response] a bundle of the declared type,
    it is rendered as the enriched bubble of that bundle. *)
Theorem bubble_follows_branch
    (f : App.Fresh) (finalState : option record) (res : SendMessageResult) :
  answer finalState = Some (Return res) ->
  match finalState with
  | Some st =>
      if takes_enriched st
      then forall e : Types.AgentEnrichedResponse,
             Types.of_value (get st "enriched_response") = Some e ->
             MessageBubble.MessageBubble (App.assistant_message f res)
             = Some (MessageBubble.EnrichedBubble
                       (MessageBubble.enriched_view e) (App.now f))
      else exists c,
             content res = VStr c
             /\ MessageBubble.MessageBubble (App.assistant_message f res)
                = Some (MessageBubble.AssistantBubble c (App.now f))
  | None =>
      MessageBubble.MessageBubble (App.assistant_message f res)
      = Some (MessageBubble.AssistantBubble NO_RESPONSE (App.now f))
  end.
Proof.
  intros Hres. destruct finalState as [st|].
  - destruct (takes_enriched st) eqn:Hpath.
    + apply takes_enriched_iff in Hpath as [Ha Hv].
      rewrite (answer_takes_enriched st _ Ha eq_refl Hv) in Hres.
      injection Hres as <-. intros e He.
      unfold MessageBubble.MessageBubble, App.assistant_message. simpl.
      by rewrite (truthy_not_nullish _ Hv), Hv, He.
    + rewrite (answer_other_path st Hpath) in Hres.
      destruct (from_messages_return st res Hres) as (c & -> & _ & _).
      by exists c.
  - simpl in Hres. by injection Hres as <-.
Qed.

Lemma bubble_follows_branch_witness :
  answer (Some Samples.glossary_turn) = Some (Return Samples.glossary_answer)
  /\ (exists c,
        content Samples.glossary_answer = VStr c
        /\ MessageBubble.MessageBubble
             (App.assistant_message (Samples.fresh 6) Samples.glossary_answer)
           = Some (MessageBubble.AssistantBubble c 6))
  /\ answer (Some Samples.data_turn)
     = Some (Return
               {| content := VStr (Types.answer_text Samples.bundle);
                  enriched := Types.to_value Samples.bundle |})
  /\ MessageBubble.MessageBubble
       (App.assistant_message (Samples.fresh 6)
          {| content := VStr (Types.answer_text Samples.bundle);
             enriched := Types.to_value Samples.bundle |})
     = Some (MessageBubble.EnrichedBubble
               (MessageBubble.enriched_view Samples.bundle) 6).
Proof.
  assert (H1 : answer (Some Samples.glossary_turn)
               = Some (Return Samples.glossary_answer))
    by (vm_compute; reflexivity).
  assert (H2 : answer (Some Samples.data_turn)
               = Some (Return
                         {| content := VStr (Types.answer_text Samples.bundle);
                            enriched := Types.to_value Samples.bundle |}))
    by (vm_compute; reflexivity).
  split; [exact H1 | split; [| split; [exact H2 |]]].
  - exact (bubble_follows_branch (Samples.fresh 6) _ _ H1).
  - exact (bubble_follows_branch (Samples.fresh 6) _ _ H2 Samples.bundle
             (enriched_round_trip Samples.bundle)).
Defined.

End Rendering.

(** ** The input bar and the guard of [handleSend] *)

Section Guards.
Import Types App.

(** X6. [handleKeyDown] calls [preventDefault] exactly on Enter without
    Shift, whether or not anything is sent, and calls [onSend] exactly when,
    in addition, the send button is enabled: the keyboard and the button
    send under the same condition. *)
Theorem enter_sends_when_button_enabled
    (p : InputBar.Props) (e : InputBar.KeyboardEvent) :
  (InputBar.preventDefault (InputBar.handleKeyDown p e) = true
   <-> InputBar.key e = lit "Enter" /\ InputBar.shiftKey e = false)
  /\ (InputBar.onSend (InputBar.handleKeyDown p e) = true
      <-> InputBar.key e = lit "Enter" /\ InputBar.shiftKey e = false
          /\ InputBar.canSend p = true).
Proof.
  unfold InputBar.handleKeyDown, InputBar.canSend.
  rewrite truthy_string_length.
  destruct (negb (InputBar.isLoading p) && _).
  all: case_bool_decide as Hk; destruct (InputBar.shiftKey e); simpl.
  all: split; split; intros; try done; intuition congruence.
Qed.

(** X7. [handleSend] goes past its guard exactly when the send button is
    enabled and a thread id is present; with the button enabled but no
    thread yet, a call does nothing and the input stays. *)
Lemma returns_early_iff s :
  returns_early s
  = negb (InputBar.canSend (inputBarProps s) && Page.present (threadId s)).
Proof.
  unfold returns_early, InputBar.canSend, Page.present.
  rewrite truthy_string_length.
  cbn [inputBarProps InputBar.value InputBar.isLoading].
  destruct (0 <? length (trim (inputValue s)))%nat, (isLoading s),
    (threadId s) as [t|]; try reflexivity.
  all: cbn [negb orb andb]; by destruct (truthy (VStr t)).
Qed.

Theorem send_needs_button_and_thread (f : Fresh) (s : State) :
  (is_Some (handleSend_call f s)
   <-> InputBar.canSend (inputBarProps s) = true
       /\ Page.present (threadId s) = true)
  /\ (Page.present (threadId s) = false ->
      forall runs_stream f', handleSend runs_stream f f' s = Some s).
Proof.
  unfold handleSend, handleSend_call. rewrite returns_early_iff.
  destruct (InputBar.canSend (inputBarProps s)),
    (Page.present (threadId s)); simpl; split;
    try (split; [by intros [? [=]] | by intros [? ?]]);
    try (split; [done | by intros _; eexists]); done.
Qed.

Lemma send_needs_button_and_thread_witness :
  Page.present (threadId initial) = false
  /\ InputBar.canSend
       (inputBarProps (setInputValue (lit "hello") initial)) = true
  /\ handleSend (fun _ => Samples.glossary_stream)
       (Samples.fresh 1) (Samples.fresh 2)
       (setInputValue (lit "hello") initial)
     = Some (setInputValue (lit "hello") initial).
Proof.
  split; [reflexivity | split; [reflexivity |]].
  exact (proj2 (send_needs_button_and_thread (Samples.fresh 1)
                  (setInputValue (lit "hello") initial))
           eq_refl (fun _ => Samples.glossary_stream) (Samples.fresh 2)).
Defined.

(** X8. A call of [handleSend] that goes past its guard posts the trimmed
    input -- not empty, no white space at either end -- on the current thread
    id, which is not empty; it appends that text as a human message without
    a bundle, empties the input, clears the error and sets [isLoading]. *)
Theorem send_posts_trimmed_text (f : Fresh) (s s' : State) (rq : Request) :
  handleSend_call f s = Some (s', rq) ->
  userMessage rq = trim (inputValue s)
  /\ userMessage rq <> []
  /\ trim (userMessage rq) = userMessage rq
  /\ threadId s = Some (thread rq)
  /\ thread rq <> []
  /\ s' = {| threadId := threadId s;
             messages := messages s ++ [human_message f (userMessage rq)];
             inputValue := []; isLoading := true; error := None |}.
Proof.
  unfold handleSend_call, returns_early. intros H.
  destruct (trim (inputValue s)) as [|c text] eqn:Htext; [done |].
  destruct (isLoading s); [done |].
  destruct (threadId s) as [[|c' t]|] eqn:Hthread; try done.
  simpl in H. injection H as <- <-. simpl.
  split; [done |]. split; [done |].
  split; [rewrite <- Htext; apply trim_idem |].
  split; [done |]. split; [done |].
  unfold setError, setIsLoading, setInputValue, setMessages. simpl.
  by rewrite Hthread.
Qed.

Lemma send_posts_trimmed_text_witness :
  handleSend_call (Samples.fresh 3) Samples.ready
    = Some (Session.app Samples.asked,
            {| thread := lit "thread-1";
               userMessage := lit "What does magnitude mean?" |})
  /\ trim (lit "What does magnitude mean?")
     = lit "What does magnitude mean?"
  /\ inputValue (Session.app Samples.asked) = [].
Proof.
  assert (H : handleSend_call (Samples.fresh 3) Samples.ready
              = Some (Session.app Samples.asked,
                      {| thread := lit "thread-1";
                         userMessage := lit "What does magnitude mean?" |}))
    by (vm_compute; reflexivity).
  split; [exact H |].
  destruct (send_posts_trimmed_text _ _ _ _ H) as (_ & _ & Ht & _ & _ & Hs).
  split; [exact Ht | by rewrite Hs].
Defined.

End Guards.

(** ** The message list of the page *)

Section Conversation.
Import Types App Session.

Lemma last_role_cons p x ms :
  last_role p (x :: ms) = last_role (Some (role x)) ms.
Proof. unfold last_role. rewrite last_cons. by destruct (last ms). Qed.

Lemma follows_snoc p ms m :
  follows p (ms ++ [m]) <-> follows p ms /\ may_follow (last_role p ms) m.
Proof.
  revert p. induction ms as [|x ms IH]; intros p; simpl.
  - unfold last_role. simpl. tauto.
  - rewrite IH, last_role_cons. tauto.
Qed.

Lemma last_role_snoc p ms m : last_role p (ms ++ [m]) = Some (role m).
Proof. unfold last_role. by rewrite last_snoc. Qed.

Lemma send_shaped f sys : shaped sys -> shaped (send f sys).
Proof.
  intros (Hc & Hconv & Hlast). unfold send.
  destruct (handleSend_call f (app sys)) as [[s rq]|] eqn:Hcall; [| done].
  pose proof (step_consistent (ClickSend f) sys _ Hc eq_refl) as Hc'.
  unfold step, send in Hc'. rewrite Hcall in Hc'.
  apply handleSend_call_Some in Hcall as (_ & _ & Hmsgs & _).
  split; [done |]. unfold conversation, awaits_answer. simpl.
  rewrite Hmsgs. split.
  - apply follows_snoc. by split.
  - intros _. apply last_role_snoc.
Qed.

Lemma step_shaped ev sys sys' :
  shaped sys -> step ev sys = Some sys' -> shaped sys'.
Proof.
  intros Hs Hstep. pose proof Hs as (Hc & Hconv & Hlast).
  assert (Hc' : consistent sys') by eauto using step_consistent.
  destruct ev as [e f|f|text| |strm f|r]; simpl in Hstep.
  - injection Hstep as <-. destruct (InputBar.onSend _); [| done].
    by apply send_shaped.
  - injection Hstep as <-. by apply send_shaped.
  - by injection Hstep as <-.
  - destruct (isLoading (app sys)) eqn:Hoff; [done |].
    injection Hstep as <-. split; [done |]. split; [done |].
    unfold awaits_answer. simpl. congruence.
  - destruct (in_flight sys) as [|rq rest] eqn:Hin; [done |].
    destruct (Api.sendMessage strm) as [r|]; [| done]. simpl in Hstep.
    injection Hstep as <-. split; [done |].
    assert (Hload : isLoading (app sys) = true).
    { unfold consistent in Hc. rewrite Hin in Hc.
      by destruct (isLoading (app sys)). }
    unfold conversation, awaits_answer. simpl.
    destruct r as [res|err]; simpl.
    + split; [| done]. apply follows_snoc. split; [done |].
      by apply Hlast.
    + by split.
  - destruct (connecting sys); [done |]. injection Hstep as <-.
    split; [done |]. unfold conversation, awaits_answer.
    by destruct r.
Qed.

Lemma run_shaped evs sys sys' :
  shaped sys -> run evs sys = Some sys' -> shaped sys'.
Proof.
  revert sys. induction evs as [|ev evs IH]; intros sys Hs Hrun;
    simpl in Hrun.
  - by injection Hrun as <-.
  - destruct (step ev sys) as [sys1|] eqn:Hstep; [| done].
    eauto using step_shaped.
Qed.

Lemma start_shaped : shaped start.
Proof. by repeat split. Qed.

(** X9. In every state the page can reach, each assistant message of the
    list comes directly after a human message and no human message carries
    a bundle; while a Turn is in flight the list ends with a human message
    (the question being answered). *)
Theorem assistant_follows_human (evs : list Event) (sys : System) :
  run evs start = Some sys ->
  conversation (messages (app sys))
  /\ (isLoading (app sys) = true ->
      exists m, last (messages (app sys)) = Some m /\ role m = human).
Proof.
  intros Hrun.
  destruct (run_shaped _ _ _ start_shaped Hrun) as (_ & Hconv & Hlast).
  split; [done |]. intros Hload. specialize (Hlast Hload).
  unfold last_role in Hlast.
  destruct (last (messages (app sys))) as [m|]; [| done].
  exists m. split; [done |]. congruence.
Qed.

Lemma assistant_follows_human_witness :
  run Samples.visit start = Some Samples.first_question
  /\ conversation (messages (app Samples.first_question))
  /\ exists m, last (messages (app Samples.first_question)) = Some m
               /\ role m = human.
Proof.
  assert (H : run Samples.visit start = Some Samples.first_question)
    by (vm_compute; reflexivity).
  destruct (assistant_follows_human _ _ H) as (H1 & H2).
  split; [exact H | split; [exact H1 | exact (H2 eq_refl)]].
Defined.

End Conversation.

(** ** New chat, the header and the chat window *)

Section PageFacts.
Import Types App Session.

(** X10. "New chat" empties the list at once but leaves the thread id in
    place until [createThread] settles: a Turn started in between is posted
    on the thread of the conversation just cleared, and its question is the
    only entry of the list. *)
Theorem new_chat_keeps_thread_until_created
    (sys sys1 sys2 sys3 : System) (text : jsstring) (ev : Event) :
  step ClickNewChat sys = Some sys1 ->
  step (Change text) sys1 = Some sys2 ->
  starts_turn ev sys2 sys3 ->
  exists f rq,
    in_flight sys3 = in_flight sys ++ [rq]
    /\ threadId (app sys) = Some (thread rq)
    /\ userMessage rq = trim text
    /\ messages (app sys3) = [human_message f (trim text)].
Proof.
  intros Hnew Hchange Hstart.
  destruct (starts_turn_inv _ _ _ Hstart) as (f & rq & Hcall & Hin).
  apply handleSend_call_Some in Hcall as (_ & _ & Hmsgs & Hthread & Htext & _).
  simpl in Hnew. destruct (isLoading (app sys)); [done |].
  injection Hnew as <-. injection Hchange as <-.
  exists f, rq. by repeat split.
Qed.

Lemma new_chat_keeps_thread_until_created_witness :
  step ClickNewChat
    {| app := setInputValue [] Samples.ready; in_flight := [];
       connecting := 0 |}
  = Some {| app := handleNewChat_call Samples.ready; in_flight := [];
            connecting := 1 |}
  /\ starts_turn (ClickSend (Samples.fresh 7))
       {| app := setInputValue (lit "Any quakes today?")
                   (handleNewChat_call Samples.ready);
          in_flight := []; connecting := 1 |}
       (send (Samples.fresh 7)
          {| app := setInputValue (lit "Any quakes today?")
                      (handleNewChat_call Samples.ready);
             in_flight := []; connecting := 1 |})
  /\ exists f rq,
       in_flight
         (send (Samples.fresh 7)
            {| app := setInputValue (lit "Any quakes today?")
                        (handleNewChat_call Samples.ready);
               in_flight := []; connecting := 1 |})
       = [] ++ [rq]
       /\ Some (lit "thread-1") = Some (thread rq)
       /\ userMessage rq = trim (lit "Any quakes today?")
       /\ messages
            (app (send (Samples.fresh 7)
                    {| app := setInputValue (lit "Any quakes today?")
                                (handleNewChat_call Samples.ready);
                       in_flight := []; connecting := 1 |}))
          = [human_message f (trim (lit "Any quakes today?"))].
Proof.
  assert (H1 : step ClickNewChat
                 {| app := setInputValue [] Samples.ready; in_flight := [];
                    connecting := 0 |}
               = Some {| app := handleNewChat_call Samples.ready;
                         in_flight := []; connecting := 1 |})
    by reflexivity.
  assert (H2 : step (Change (lit "Any quakes today?"))
                 {| app := handleNewChat_call Samples.ready;
                    in_flight := []; connecting := 1 |}
               = Some {| app := setInputValue (lit "Any quakes today?")
                                  (handleNewChat_call Samples.ready);
                         in_flight := []; connecting := 1 |})
    by reflexivity.
  assert (H3 : starts_turn (ClickSend (Samples.fresh 7))
                 {| app := setInputValue (lit "Any quakes today?")
                             (handleNewChat_call Samples.ready);
                    in_flight := []; connecting := 1 |}
                 (send (Samples.fresh 7)
                    {| app := setInputValue (lit "Any quakes today?")
                                (handleNewChat_call Samples.ready);
                       in_flight := []; connecting := 1 |}))
    by (repeat split; vm_compute; reflexivity).
  split; [exact H1 | split; [exact H3 |]].
  exact (new_chat_keeps_thread_until_created _ _ _ _ _ _ H1 H2 H3).
Defined.

(** X11. The header shows exactly one of its three status labels in every
    state: "Disconnected" exactly when the error banner is shown, otherwise
    "Connected" with a thread id and "Connecting" without one. *)
Theorem one_status_shown (s : State) :
  exists st,
    Page.status_spans s = [st]
    /\ (st = Page.Disconnected <-> is_Some (Page.error_banner s))
    /\ (st = Page.Connected <->
        Page.present (threadId s) = true /\ Page.error_banner s = None)
    /\ (st = Page.Connecting <->
        Page.present (threadId s) = false /\ Page.error_banner s = None).
Proof.
  unfold Page.status_spans, Page.error_banner.
  destruct (Page.present (error s)) eqn:He.
  - destruct (error s) as [m|] eqn:Hm; [| done].
    rewrite !andb_false_r. exists Page.Disconnected.
    split; [done |]. split; [split; [by eexists | done] |].
    split; split; try done; by intros [_ [=]].
  - destruct (Page.present (threadId s)); simpl.
    + exists Page.Connected. split; [done |].
      split; [split; [done | by intros [? [=]]] |].
      split; split; try done. by intros [[=] _].
    + exists Page.Connecting. split; [done |].
      split; [split; [done | by intros [? [=]]] |].
      split; split; try done. by intros [[=] _].
Qed.

(** X12. After a Turn has failed the banner shows the [message] of the
    [Error] thrown, or the fixed sentence when what was thrown is no
    [Error], and the header reads "Disconnected" -- unless the message is
    the empty string: then no banner is shown and the header does not read
    "Disconnected". *)
Theorem failed_turn_display (f : Fresh) (err : thrown) (s : State) :
  (error_message err <> [] ->
   Page.error_banner (handleSend_settle f (Throw err) s)
     = Some (error_message err)
   /\ Page.status_spans (handleSend_settle f (Throw err) s)
      = [Page.Disconnected])
  /\ (error_message err = [] ->
      Page.error_banner (handleSend_settle f (Throw err) s) = None
      /\ Page.Disconnected ∉ Page.status_spans (handleSend_settle f (Throw err) s))
  /\ (forall v, err = Other v -> error_message err = UNEXPECTED)
  /\ UNEXPECTED <> [].
Proof.
  unfold Page.error_banner, Page.status_spans. simpl.
  destruct (error_message err) as [|c m] eqn:E; simpl.
  - split; [done |]. split.
    + intros _. split; [done |].
      destruct (Page.present (threadId s)); simpl;
        by intros [=]%list_elem_of_singleton.
    + split; [| done]. intros v ->. simpl in E. done.
  - split.
    + intros _. by destruct (Page.present (threadId s)).
    + split; [done |]. split; [| done]. intros v ->. simpl in E. done.
Qed.

Lemma failed_turn_display_witness :
  error_message (ErrorObject (lit "Failed to fetch")) <> []
  /\ Page.error_banner
       (handleSend_settle (Samples.fresh 6)
          (Throw (ErrorObject (lit "Failed to fetch")))
          (app Samples.waiting))
     = Some (lit "Failed to fetch")
  /\ error_message (ErrorObject []) = []
  /\ Page.error_banner
       (handleSend_settle (Samples.fresh 6) (Throw (ErrorObject []))
          (app Samples.waiting))
     = None.
Proof.
  assert (H1 : error_message (ErrorObject (lit "Failed to fetch")) <> [])
    by (vm_compute; discriminate).
  assert (H2 : error_message (ErrorObject []) = []) by reflexivity.
  split; [exact H1 | split; [| split; [exact H2 |]]].
  - exact (proj1 (proj1 (failed_turn_display (Samples.fresh 6)
                           (ErrorObject (lit "Failed to fetch"))
                           (app Samples.waiting)) H1)).
  - exact (proj1 (proj1 (proj2 (failed_turn_display (Samples.fresh 6)
                                  (ErrorObject [])
                                  (app Samples.waiting))) H2)).
Defined.

(** C5.  The code at the input where it departs from the claim: the stream
    of a Turn rejects with an [Error] whose message is the empty string.
    The Turn fails, no assistant message is appended and the list is left as
    it was, as the claim says; but the failure is not surfaced: the [error]
    cell holds the empty string, which the banner and the header test as
    falsy, so no banner is shown and the header reads "Connected". *)
Lemma empty_error_message_is_not_shown :
  starts_turn (KeyDown Samples.enter (Samples.fresh 3))
    Samples.first_visit Samples.asked
  /\ run Samples.meanwhile Samples.asked = Some Samples.waiting
  /\ Api.sendMessage Samples.silent_failure = Some (Throw (ErrorObject []))
  /\ step (StreamEnds Samples.silent_failure (Samples.fresh 6))
       Samples.waiting
     = Some (Samples.settled (Throw (ErrorObject [])))
  /\ messages (app (Samples.settled (Throw (ErrorObject []))))
     = messages (app Samples.waiting)
  /\ error (app (Samples.settled (Throw (ErrorObject [])))) = Some []
  /\ Page.error_banner (app (Samples.settled (Throw (ErrorObject []))))
     = None
  /\ Page.status_spans (app (Samples.settled (Throw (ErrorObject []))))
     = [Page.Connected].
Proof. repeat split; vm_compute; reflexivity. Qed.

(** X13. In every state the page can reach, the chat window shows the empty
    state with the four suggestions exactly when the message list is empty
    -- which it never is while a Turn is in flight -- and otherwise one
    bubble per message, in order, followed by the loading dots exactly
    while [isLoading] is set. *)
Theorem chat_window_of_reachable (evs : list Event) (sys : System) :
  run evs start = Some sys ->
  ChatWindow.ChatWindow (Page.chatWindowProps (app sys)) =
  match messages (app sys) with
  | [] => ChatWindow.EmptyState ChatWindow.SUGGESTIONS
  | ms => ChatWindow.MessageList
            (MessageBubble.MessageBubble <$> ms) (isLoading (app sys))
  end
  /\ (isLoading (app sys) = true -> messages (app sys) <> []).
Proof.
  intros Hrun.
  destruct (run_shaped _ _ _ start_shaped Hrun) as (_ & _ & Hlast).
  assert (Hne : isLoading (app sys) = true -> messages (app sys) <> []).
  { intros Hload E. specialize (Hlast Hload). by rewrite E in Hlast. }
  split; [| done].
  unfold ChatWindow.ChatWindow, ChatWindow.isEmpty, Page.chatWindowProps.
  simpl. destruct (messages (app sys)) as [|m ms]; simpl; [| done].
  destruct (isLoading (app sys)); [| done]. by destruct Hne.
Qed.

Lemma chat_window_of_reachable_witness :
  run Samples.visit start = Some Samples.first_question
  /\ ChatWindow.ChatWindow (Page.chatWindowProps (app Samples.first_question))
     = ChatWindow.MessageList
         [Some (MessageBubble.HumanBubble
                  (lit "What does magnitude mean?") 3)]
         true.
Proof.
  assert (H : run Samples.visit start = Some Samples.first_question)
    by (vm_compute; reflexivity).
  split; [exact H |].
  exact (proj1 (chat_window_of_reachable _ _ H)).
Defined.

End PageFacts.

(** ** The enriched bubble *)

Section EnrichedBubble.
Import Types MessageBubble.

Lemma lit_inj s1 s2 : lit s1 = lit s2 -> s1 = s2.
Proof.
  unfold lit. intros H.
  rewrite <- (String.string_of_list_ascii_of_string s1),
          <- (String.string_of_list_ascii_of_string s2).
  f_equal. revert H.
  generalize (String.list_ascii_of_string s1) as l1,
             (String.list_ascii_of_string s2) as l2.
  induction l1 as [|a l1 IH]; intros [|b l2] H; try done.
  injection H as Hab Hl.
  rewrite <- (ascii_N_embedding a), <- (ascii_N_embedding b), Hab.
  f_equal. by apply IH.
Qed.

Lemma numbered_heading_inj i j :
  lit "API call " ++ lit (pretty (i + 1)%nat)
  = lit "API call " ++ lit (pretty (j + 1)%nat) -> i = j.
Proof.
  intros H%app_inv_head%lit_inj. apply (inj pretty) in H. lia.
Qed.

Lemma call_headings (e : AgentEnrichedResponse) :
  call_heading <$> view_calls (enriched_view e)
  = heading (length (api_calls e)) <$> seq 0 (length (api_calls e)).
Proof.
  apply list_eq. intros i. simpl.
  rewrite !list_lookup_fmap, list_lookup_imap.
  destruct (api_calls e !! i) as [c|] eqn:Hc; simpl.
  - rewrite lookup_seq_lt by (by eapply lookup_lt_Some). done.
  - rewrite lookup_seq_ge by (by apply lookup_ge_None). done.
Qed.

(** X14. The enriched bubble has one section per API call, in order.  A
    single call is headed "API call"; several calls are headed "API call 1",
    "API call 2", ... in order, so no two sections share a heading. *)
Theorem call_sections_numbered (e : AgentEnrichedResponse) :
  length (view_calls (enriched_view e)) = length (api_calls e)
  /\ call_heading <$> view_calls (enriched_view e)
     = match api_calls e with
       | [_] => [lit "API call"]
       | calls =>
           (fun i => lit "API call " ++ lit (pretty (i + 1)%nat))
           <$> seq 0 (length calls)
       end
  /\ NoDup (call_heading <$> view_calls (enriched_view e)).
Proof.
  split; [apply length_imap |].
  rewrite call_headings.
  destruct (api_calls e) as [|c [|c' calls]] eqn:E.
  - split; [done | constructor].
  - split; [done |]. apply NoDup_singleton.
  - assert (Hh : heading (length (c :: c' :: calls))
                 = fun i => lit "API call " ++ lit (pretty (i + 1)%nat))
      by reflexivity.
    rewrite Hh. split; [done |].
    apply NoDup_fmap_2_strong; [| apply NoDup_seq].
    intros i j _ _. apply numbered_heading_inj.
Qed.

End EnrichedBubble.

(** ** Connecting *)

Section Connecting.
Import App.

(** X16. When [createThread] returns a (non-empty) thread id, that id
    replaces the old one, the error is cleared and the header reads
    "Connected".  When it throws, the thread id and the messages stay as
    they were, the banner shows the fixed "Could not connect" sentence and
    the header reads "Disconnected". *)
Theorem connect_outcome (s : State) :
  (forall i : jsstring,
     i <> [] ->
     threadId (initThread_settle (Return i) s) = Some i
     /\ Page.error_banner (initThread_settle (Return i) s) = None
     /\ Page.status_spans (initThread_settle (Return i) s)
        = [Page.Connected])
  /\ (forall e : thrown,
        threadId (initThread_settle (Throw e) s) = threadId s
        /\ messages (initThread_settle (Throw e) s) = messages s
        /\ Page.error_banner (initThread_settle (Throw e) s)
           = Some CANNOT_CONNECT
        /\ Page.status_spans (initThread_settle (Throw e) s)
           = [Page.Disconnected]).
Proof.
  split.
  - intros [|c i] Hi; [done |]. done.
  - intros e. unfold Page.status_spans, Page.error_banner. simpl.
    by destruct (Page.present (threadId s)).
Qed.

Lemma connect_outcome_witness :
  lit "thread-2" <> []
  /\ threadId (initThread_settle (Return (lit "thread-2")) Samples.ready)
     = Some (lit "thread-2")
  /\ Page.status_spans
       (initThread_settle (Return (lit "thread-2")) Samples.ready)
     = [Page.Connected].
Proof.
  assert (H : lit "thread-2" <> []) by (vm_compute; discriminate).
  destruct (proj1 (connect_outcome Samples.ready) _ H) as (H1 & _ & H2).
  split; [exact H | split; [exact H1 | exact H2]].
Defined.

End Connecting.
